(** * Cold Leads: the duplicate-aware lead ingestion pipeline

    A shallow embedding of the TypeScript sources

    - [types.ts]  (the [Lead], [ExtractedData] and [ProcessingStatus] types),
    - [App.tsx]   ([readFile], [processFiles] and the two handlers that
                  call it, the [setLeads] updater, the statistics shown in
                  the header and [exportToExcel]),
    - [components/LeadTable.tsx] (the rows of the table),
    - [services/geminiService.ts] ([getSystemInstruction],
                  [cleanJsonOutput], [extractLeadsFromFile]),

    followed by the properties of the pipeline.

    JavaScript strings are modelled as [string], arrays as [list], the
    [Set] of phone numbers as a [gset string], and the state of the React
    component as a record that is passed explicitly.  What the environment
    decides is an input of the model: the event a [FileReader] fires, how
    the promise of the gateway settles, what [crypto.randomUUID] and
    [new Date()] return, and the order in which the suspended callbacks of
    a batch are resumed.  A call of [processFiles] is modelled twice: as a
    function, for a call that runs with no other event of the page in
    between, and as events of the page, where calls overlap; the second
    model is built from the pieces of the first.  The batch processor is
    modelled against the signature that the service declares
    ([Promise<ExtractedData[]>]); the service itself is modelled on the
    values of [JSON.parse]. *)

From Stdlib Require Import Ascii.
From Stdlib Require String.
From stdpp Require Import base decidable option list sets gmap strings pretty.

Set Warnings "-clear-no-such-hyp".

Local Open Scope string_scope.
Local Open Scope list_scope.

(** ** types.ts *)

Module ExtractedData.
(** [interface ExtractedData]: the candidate record of the gateway. *)
Record t : Type := Build {
  fullName : string;
  phoneNumber : string;
  outreachMessage : string
}.
End ExtractedData.

(** [interface Lead] *)
Record Lead : Type := Build_Lead {
  id : string;
  fullName : string;
  phoneNumber : string;
  outreachMessage : string;
  sourceFile : string;
  isDuplicate : bool;
  extractedAt : string
}.

(** [enum ProcessingStatus] *)
Inductive ProcessingStatus : Type := IDLE | PROCESSING | SUCCESS | ERROR.

(** ** App.tsx: the [setLeads] updater (the lead merger) *)

(** The object spread [{ ...lead, isDuplicate: b }]. *)
Definition withIsDuplicate (lead : Lead) (b : bool) : Lead :=
  {| id := id lead;
     fullName := fullName lead;
     phoneNumber := phoneNumber lead;
     outreachMessage := outreachMessage lead;
     sourceFile := sourceFile lead;
     isDuplicate := b;
     extractedAt := extractedAt lead |}.

(** The callback of [newLeadsAccumulator.map]: it reads and updates the
    set [existingPhones], which is threaded through explicitly. *)
Definition markLead (existingPhones : gset string) (lead : Lead)
  : Lead * gset string :=
  if decide (phoneNumber lead ∈ existingPhones)
  then (withIsDuplicate lead true, existingPhones)
  else (withIsDuplicate lead false, {[phoneNumber lead]} ∪ existingPhones).

(** [Array.prototype.map] with a callback that mutates [existingPhones]:
    the elements are visited from left to right. *)
Fixpoint processBatchFrom (existingPhones : gset string) (batch : list Lead)
  : list Lead :=
  match batch with
  | [] => []
  | lead :: rest =>
      let '(lead', existingPhones') := markLead existingPhones lead in
      lead' :: processBatchFrom existingPhones' rest
  end.

(** [new Set(prevLeads.map(l => l.phoneNumber))] *)
Definition phonesOf (leads : list Lead) : gset string :=
  list_to_set (phoneNumber <$> leads).

Definition processedBatch (prevLeads newLeadsAccumulator : list Lead)
  : list Lead :=
  processBatchFrom (phonesOf prevLeads) newLeadsAccumulator.

(** The updater passed to [setLeads]:
    [[...processedBatch, ...prevLeads]]. *)
Definition merge (prevLeads newLeadsAccumulator : list Lead) : list Lead :=
  processedBatch prevLeads newLeadsAccumulator ++ prevLeads.

(** The statistics of the header. *)
Definition totalLeads (leads : list Lead) : nat := length leads.
Definition duplicateCount (leads : list Lead) : nat :=
  length (filter (λ l, isDuplicate l = true) leads).
Definition newLeads (leads : list Lead) : nat :=
  totalLeads leads - duplicateCount leads.

(** The history after a sequence of successful batches, oldest batch
    first, starting from the empty history of [useState<Lead[]>([])]. *)
Definition runMerges (batches : list (list Lead)) : list Lead :=
  foldl merge [] batches.

(** The blocks that the merges of [batches] prepend to the history [H],
    in the order in which they were merged. *)
Fixpoint mergeLog (H : list Lead) (batches : list (list Lead))
  : list (list Lead) :=
  match batches with
  | [] => []
  | B :: rest => processedBatch H B :: mergeLog (merge H B) rest
  end.

(** The leads of the history in the order in which they were merged:
    older batches first, and a batch in the order it was walked. *)
Definition mergeOrder (batches : list (list Lead)) : list Lead :=
  concat (mergeLog [] batches).

(** [{ ...lead, id: i }], used to compare leads with their ids aside. *)
Definition withId (lead : Lead) (i : string) : Lead :=
  {| id := i;
     fullName := fullName lead;
     phoneNumber := phoneNumber lead;
     outreachMessage := outreachMessage lead;
     sourceFile := sourceFile lead;
     isDuplicate := isDuplicate lead;
     extractedAt := extractedAt lead |}.

Definition sameUpToId (l l' : Lead) : Prop := withId l "" = withId l' "".

(** ** JavaScript string helpers used by the sources

    A [string] is a sequence of 8-bit characters: texts are modelled in
    the Latin-1 range, where a character is its own code unit. *)

(** [s.startsWith(p)] *)
Definition startsWith (s p : string) : bool := String.prefix p s.

(** [s.endsWith(p)] *)
Definition endsWith (s p : string) : bool :=
  Nat.leb (String.length p) (String.length s) &&
  String.eqb (String.substring (String.length s - String.length p) (String.length p) s) p.

(** [s.split(c)] for a one-character separator: never the empty array. *)
Fixpoint split (sep : Ascii.ascii) (s : string) : list string :=
  match s with
  | EmptyString => [EmptyString]
  | String c s' =>
      if Ascii.eqb c sep then EmptyString :: split sep s'
      else match split sep s' with
           | [] => [String c EmptyString]
           | seg :: segs => String c seg :: segs
           end
  end.

(** [l.join(sep)] *)
Definition join (sep : string) (l : list string) : string := String.concat sep l.

(** [a || b] on strings: the empty string is falsy. *)
Definition orElse (a b : string) : string :=
  if String.eqb a "" then b else a.

(** ** App.tsx: [readFile] (the file decoder) *)

Module File.
(** The two properties of a DOM [File] that [readFile] looks at. *)
Record t : Type := Build { name : string; type : string }.
End File.

(** What the [FileReader] reports for the read that was started: [onload]
    with [reader.result], or [onerror]. *)
Inductive ReaderEvent : Type :=
  | ReaderLoad (result : string)
  | ReaderError.

(** How a promise settles; a rejection carries the [message] of the
    [Error] it was rejected with. *)
Inductive Settled (A : Type) : Type :=
  | Resolved (value : A)
  | Rejected (message : string).
Arguments Resolved {A} value.
Arguments Rejected {A} message.

(** The value [readFile] resolves with.  [content] is [None] for the
    JavaScript [undefined] ([result.split(',')[1]] of a result that has no
    comma). *)
Record Decoded : Type := Build_Decoded {
  content : option string;
  mimeType : string
}.

Definition readFile (file : File.t) (ev : ReaderEvent) : Settled Decoded :=
  if startsWith (File.type file) "image/" then
    match ev with
    | ReaderLoad result =>
        let base64Data := split ","%char result !! 1%nat in
        Resolved {| content := base64Data; mimeType := File.type file |}
    | ReaderError => Rejected ("Failed to read file: " +:+ File.name file)
    end
  else if String.eqb (File.type file) "text/csv"
       || String.eqb (File.type file) "text/plain"
       || endsWith (File.name file) ".csv"
       || endsWith (File.name file) ".txt" then
    match ev with
    | ReaderLoad result =>
        Resolved {| content := Some result; mimeType := "text/plain" |}
    | ReaderError => Rejected ("Failed to read file: " +:+ File.name file)
    end
  else Rejected ("Unsupported file type: " +:+ File.name file).

(** The result of [reader.readAsDataURL] for a blob of media type
    [mediaType] whose bytes encode to [payload] in base64. *)
Definition dataURL (mediaType payload : string) : string :=
  "data:" +:+ mediaType +:+ ";base64," +:+ payload.


(** ** App.tsx: [processFiles] (the batch processor)

    The environment of a batch.  [crypto.randomUUID()] and
    [new Date().toISOString()] are read from the browser: [randomUUID k]
    is what the k-th call of the session returns, and likewise [nowISO]. *)
Record Browser : Type := Build_Browser {
  randomUUID : nat → string;
  nowISO : nat → string
}.

(** A submitted file together with what its environment does with it: the
    event the [FileReader] fires, and how the promise returned by
    [extractLeadsFromFile] settles ([Promise<ExtractedData[]>], the
    signature declared by the service). *)
Record Upload : Type := Build_Upload {
  file : File.t;
  reader : ReaderEvent;
  extraction : Settled (list ExtractedData.t)
}.

(** One call of [extractLeadsFromFile(content, mimeType, senderName,
    companyName)]. *)
Record GatewayCall : Type := Build_GatewayCall {
  callContent : option string;
  callMimeType : string;
  callSenderName : string;
  callCompanyName : string
}.

(** The effects on the world outside the component: how often the two
    browser sources were read, which files [readFile] was called on, and
    which gateway calls were made (each in the order they happened). *)
Record Effects : Type := Build_Effects {
  uuidCalls : nat;
  dateCalls : nat;
  readFileCalls : list string;
  gatewayCalls : list GatewayCall
}.

(** [extractedData.map(item => ({ id: crypto.randomUUID(), ...,
    extractedAt: new Date().toISOString() }))]: the item at position k
    takes the next identifier and the next clock reading. *)
Fixpoint toLeads (B : Browser) (fileName : string) (u d : nat)
    (extractedData : list ExtractedData.t) : list Lead :=
  match extractedData with
  | [] => []
  | item :: rest =>
      {| id := randomUUID B u;
         fullName := ExtractedData.fullName item;
         phoneNumber := ExtractedData.phoneNumber item;
         outreachMessage := ExtractedData.outreachMessage item;
         sourceFile := fileName;
         isDuplicate := false;
         extractedAt := nowISO B d |}
      :: toLeads B fileName (S u) (S d) rest
  end.

(** The async callback of [fileArray.map], one per file, is suspended at
    [await readFile(file)], then at [await extractLeadsFromFile(...)], and
    then has returned its array of leads. *)
Inductive Task : Type :=
  | AwaitRead
  | AwaitExtract
  | Done (result : list Lead).

(** The state shared by the callbacks between [fileArray.map] and the
    resolution of [Promise.all]: the promises in file-array order, the
    [errors] array and the effects so far. *)
Record Batch : Type := Build_Batch {
  tasks : list Task;
  errors : list string;
  fx : Effects
}.

(** [`${file.name}: ${err.message || 'Unknown error'}`] *)
Definition errorEntry (up : Upload) (message : string) : string :=
  File.name (file up) +:+ ": " +:+ orElse message "Unknown error".

(** The [catch] block of the callback:
    [errors.push(...); return []]. *)
Definition catchFileError (i : nat) (up : Upload) (message : string)
    (b : Batch) : Batch :=
  {| tasks := <[i := Done []]> (tasks b);
     errors := errors b ++ [errorEntry up message];
     fx := fx b |}.

(** The callback of file [i] runs from the [await] it is suspended at to
    its next [await] or to its end.  JavaScript runs one such segment at a
    time; the order in which the segments run is the environment's. *)
Definition resume (B : Browser) (senderName companyName : string)
    (uploads : list Upload) (i : nat) (b : Batch) : Batch :=
  match uploads !! i, tasks b !! i with
  | Some up, Some AwaitRead =>
      match readFile (file up) (reader up) with
      | Rejected message => catchFileError i up message b
      | Resolved decoded =>
          {| tasks := <[i := AwaitExtract]> (tasks b);
             errors := errors b;
             fx := {| uuidCalls := uuidCalls (fx b);
                      dateCalls := dateCalls (fx b);
                      readFileCalls := readFileCalls (fx b);
                      gatewayCalls := gatewayCalls (fx b) ++
                        [{| callContent := content decoded;
                            callMimeType := mimeType decoded;
                            callSenderName := senderName;
                            callCompanyName := companyName |}] |} |}
      end
  | Some up, Some AwaitExtract =>
      match extraction up with
      | Rejected message => catchFileError i up message b
      | Resolved extractedData =>
          if Nat.eqb (length extractedData) 0 then
            {| tasks := <[i := Done []]> (tasks b);
               errors := errors b;
               fx := fx b |}
          else
            {| tasks := <[i := Done (toLeads B (File.name (file up))
                                       (uuidCalls (fx b)) (dateCalls (fx b))
                                       extractedData)]> (tasks b);
               errors := errors b;
               fx := {| uuidCalls := uuidCalls (fx b) + length extractedData;
                        dateCalls := dateCalls (fx b) + length extractedData;
                        readFileCalls := readFileCalls (fx b);
                        gatewayCalls := gatewayCalls (fx b) |} |}
      end
  | _, _ => b
  end.

(** [fileArray.map(async (file) => ...)]: every callback is started in
    file-array order and runs up to its first [await], which is after the
    call of [readFile]. *)
Definition startBatch (uploads : list Upload) (e : Effects) : Batch :=
  {| tasks := replicate (length uploads) AwaitRead;
     errors := [];
     fx := {| uuidCalls := uuidCalls e;
              dateCalls := dateCalls e;
              readFileCalls := readFileCalls e ++
                               ((λ up, File.name (file up)) <$> uploads);
              gatewayCalls := gatewayCalls e |} |}.

(** The callbacks are resumed in the order [schedule] names them. *)
Definition runSchedule (B : Browser) (senderName companyName : string)
    (uploads : list Upload) (schedule : list nat) (b : Batch) : Batch :=
  foldl (λ b i, resume B senderName companyName uploads i b) b schedule.

(** The value [Promise.all(promises)] resolves with, once every promise is
    fulfilled: the results in the order of the promises. *)
Fixpoint allResults (ts : list Task) : option (list (list Lead)) :=
  match ts with
  | [] => Some []
  | Done result :: ts' => cons result <$> allResults ts'
  | _ :: _ => None
  end.

(** The state of the component. *)
Record AppState : Type := Build_AppState {
  leads : list Lead;
  status : ProcessingStatus;
  errorMsg : option string;
  senderName : string;
  companyName : string
}.

Record Session : Type := Build_Session {
  app : AppState;
  world : Effects
}.

Definition setErrorMsg (m : option string) (a : AppState) : AppState :=
  {| leads := leads a; status := status a; errorMsg := m;
     senderName := senderName a; companyName := companyName a |}.

Definition setStatus (s : ProcessingStatus) (a : AppState) : AppState :=
  {| leads := leads a; status := s; errorMsg := errorMsg a;
     senderName := senderName a; companyName := companyName a |}.

(** [setLeads(updater)] *)
Definition setLeads (updater : list Lead → list Lead) (a : AppState) : AppState :=
  {| leads := updater (leads a); status := status a; errorMsg := errorMsg a;
     senderName := senderName a; companyName := companyName a |}.

(** The error messages of the batch processor. *)
Definition BatchTooLarge : string :=
  "Please upload a maximum of 10 files at a time.".
Definition NoLeadsFound : string :=
  "No valid leads found in the uploaded files.".
Definition BatchExtractionFailed (errors : list string) : string :=
  "Failed to extract leads from uploaded files. Errors: " +:+ join " | " errors.
Definition processedWithErrors (errors : list string) : string :=
  "Processed with some errors: " +:+ join ", " errors.

(** The outer [catch] of [processFiles]. *)
Definition catchBatchError (message : string) (a : AppState) : AppState :=
  setErrorMsg (Some (orElse message "An unexpected error occurred."))
    (setStatus ERROR a).

(** What the caller of [processFiles] observes: the call has returned, or
    it is still suspended at [await Promise.all(promises)]. *)
Inductive Outcome : Type :=
  | Returned (s : Session)
  | Pending (s : Session).

(** The batch when [await Promise.all(promises)] is reached and the
    callbacks have been resumed as [schedule] says.  [sender] and [company]
    are the [senderName] and [companyName] that the callbacks read: the
    constants of the render that created this [processFiles]. *)
Definition settleAll (B : Browser) (sender company : string)
    (uploads : list Upload) (schedule : list nat) (s : Session) : Batch :=
  runSchedule B sender company uploads schedule (startBatch uploads (world s)).

(** What [processFiles] does once [Promise.all(promises)] has resolved
    with [results], [errors] holding the entries that the callbacks have
    pushed: from [results.forEach] to the end of the [try] statement.  The
    state it is applied to is the one of that moment ([setLeads] is given
    an updater). *)
Definition finishBatch (results : list (list Lead)) (errors : list string)
    (a : AppState) : AppState :=
  let newLeadsAccumulator := concat results in
  if Nat.eqb (length newLeadsAccumulator) 0 && Nat.ltb 0 (length errors) then
    catchBatchError (BatchExtractionFailed errors) a
  else if Nat.eqb (length newLeadsAccumulator) 0 then
    catchBatchError NoLeadsFound a
  else
    let a1 := setLeads (λ prevLeads, merge prevLeads newLeadsAccumulator) a in
    let a2 := setStatus SUCCESS a1 in
    if Nat.ltb 0 (length errors)
    then setErrorMsg (Some (processedWithErrors errors)) a2
    else a2.

(** [processFiles(files)], the function that a render creates: it closes
    over the [senderName] and [companyName] of that render, here [sender]
    and [company], and reads nothing else of the state (the setters are
    the same in every render).  The state is the one at the end of the
    [try] statement; the timer that the [finally] block starts resets
    [status] to [IDLE] four seconds later. *)
Definition processFiles (B : Browser) (sender company : string)
    (uploads : list Upload) (schedule : list nat) (s : Session) : Outcome :=
  if Nat.eqb (length uploads) 0 then Returned s
  else if Nat.ltb 10 (length uploads) then
    Returned {| app := setErrorMsg (Some BatchTooLarge) (app s);
                world := world s |}
  else
    let a := setErrorMsg None (setStatus PROCESSING (app s)) in
    let b := settleAll B sender company uploads schedule s in
    match allResults (tasks b) with
    | None => Pending {| app := a; world := fx b |}
    | Some results =>
        Returned {| app := finishBatch results (errors b) a; world := fx b |}
    end.

(** *** What one file contributes to a batch

    Read off the callback of [fileArray.map]: the entry it pushes to
    [errors] when the file is rejected by [readFile] or by the gateway,
    and the candidate records it returns otherwise. *)
Definition fileError (up : Upload) : option string :=
  match readFile (file up) (reader up) with
  | Rejected message => Some (errorEntry up message)
  | Resolved _ =>
      match extraction up with
      | Rejected message => Some (errorEntry up message)
      | Resolved _ => None
      end
  end.

Definition fileCandidates (up : Upload) : list ExtractedData.t :=
  match readFile (file up) (reader up) with
  | Rejected _ => []
  | Resolved _ =>
      match extraction up with
      | Rejected _ => []
      | Resolved extractedData => extractedData
      end
  end.

(** A candidate record as a lead of its file, without the two values that
    the browser supplies (the id and the capture time). *)
Definition candidateLead (fileName : string) (item : ExtractedData.t) : Lead :=
  {| id := "";
     fullName := ExtractedData.fullName item;
     phoneNumber := ExtractedData.phoneNumber item;
     outreachMessage := ExtractedData.outreachMessage item;
     sourceFile := fileName;
     isDuplicate := false;
     extractedAt := "" |}.

Definition stripStamp (lead : Lead) : Lead :=
  {| id := "";
     fullName := fullName lead;
     phoneNumber := phoneNumber lead;
     outreachMessage := outreachMessage lead;
     sourceFile := sourceFile lead;
     isDuplicate := isDuplicate lead;
     extractedAt := "" |}.

Definition uploadCandidates (up : Upload) : list Lead :=
  candidateLead (File.name (file up)) <$> fileCandidates up.

(** Every callback has returned when [schedule] has been run. *)
Definition completes (B : Browser) (sender company : string)
    (uploads : list Upload) (schedule : list nat) (s : Session) : bool :=
  match allResults (tasks (settleAll B sender company uploads schedule s)) with
  | Some _ => true
  | None => false
  end.

(** A schedule under which every callback returns: each one is resumed
    twice, in file-array order. *)
Definition roundRobin (uploads : list Upload) : list nat :=
  seq 0 (length uploads) ++ seq 0 (length uploads).

(** ** services/geminiService.ts: the extraction gateway *)

(** A value produced by [JSON.parse].  A number is kept as its literal. *)
#[warnings="-register-all"]
Inductive JSON : Type :=
  | JNull
  | JBool (b : bool)
  | JNumber (literal : string)
  | JString (s : string)
  | JArray (items : list JSON)
  | JObject (members : list (string * JSON)).

(** [text.replace(/pat/g, '')] for a literal, non-empty [pat]: the matches
    are found from left to right and do not overlap.  [skip] counts the
    characters of the current match that are still to be dropped. *)
Fixpoint removeAll (pat : string) (skip : nat) (s : string) : string :=
  match s with
  | EmptyString => EmptyString
  | String c s' =>
      match skip with
      | S k => removeAll pat k s'
      | O => if String.prefix pat s
             then removeAll pat (String.length pat - 1) s'
             else String c (removeAll pat 0 s')
      end
  end.

(** The white space and line terminators of ECMAScript below U+0100. *)
Definition isWhiteSpace (c : ascii) : bool :=
  let n := nat_of_ascii c in
  Nat.eqb n 9 || Nat.eqb n 10 || Nat.eqb n 11 || Nat.eqb n 12 ||
  Nat.eqb n 13 || Nat.eqb n 32 || Nat.eqb n 160.

Fixpoint trimStart (s : string) : string :=
  match s with
  | String c s' => if isWhiteSpace c then trimStart s' else s
  | EmptyString => EmptyString
  end.

(** [s.trim()] *)
Definition trim (s : string) : string :=
  String.rev (trimStart (String.rev (trimStart s))).

Definition fence : string := "```".
Definition fenceJson : string := "```json".

(** [cleanJsonOutput] *)
Definition cleanJsonOutput (text : string) : string :=
  if String.eqb text "" then "[]"
  else trim (removeAll fence 0 (removeAll fenceJson 0 text)).

(** The parts of the request that depend on the file. *)
Inductive Part : Type :=
  | InlineData (mimeType data : string)
  | TextPart (text : string).

Definition newline : string := String "010"%char EmptyString.

(** The [contents] of the request. *)
Definition buildContents (fileContent mimeType : string) : list Part :=
  let isImage := startsWith mimeType "image/" in
  if isImage then
    [InlineData mimeType fileContent;
     TextPart "Extract the driver list from this image. Return valid JSON."]
  else
    [TextPart ("Extract the driver list from the following text data:"
               +:+ newline +:+ newline +:+ fileContent)].

(** The request of [ai.models.generateContent]; the system instruction is
    a function of the two campaign settings, which stand for it. *)
Record Request : Type := Build_Request {
  contents : list Part;
  instructionSender : string;
  instructionCompany : string
}.

(** What the call of the model does: it throws (or its promise is
    rejected), or it answers with a response whose [text] may be
    [undefined]. *)
Inductive GenerateContent : Type :=
  | CallFails
  | Response (text : option string).

Definition ExtractionFailure : string :=
  "Failed to extract data. The file might be unclear or the AI could not find valid leads.".

Section Gateway.
(** [JSON.parse] of the runtime: [None] when it throws a [SyntaxError]. *)
Variable JSON_parse : string → option JSON.
(** The model behind [ai.models.generateContent]. *)
Variable generateContent : Request → GenerateContent.

(** [extractLeadsFromFile]; the value it resolves with is whatever
    [JSON.parse] returned (the cast [as ExtractedData[]] checks nothing). *)
Definition extractLeadsFromFile (fileContent mimeType senderName companyName : string)
  : Settled JSON :=
  let contents := buildContents fileContent mimeType in
  match generateContent {| contents := contents;
                           instructionSender := senderName;
                           instructionCompany := companyName |} with
  | CallFails => Rejected ExtractionFailure
  | Response None => Resolved (JArray [])
  | Response (Some textOutput) =>
      if String.eqb textOutput "" then Resolved (JArray [])
      else
        match JSON_parse (cleanJsonOutput textOutput) with
        | Some parsedData => Resolved parsedData
        | None => Rejected ExtractionFailure
        end
  end.
End Gateway.

(** The shape that the type [ExtractedData[]] promises: an array of
    objects in which the three required fields are strings. *)
Fixpoint lookupMember (key : string) (members : list (string * JSON)) : option JSON :=
  match members with
  | [] => None
  | (k, v) :: rest =>
      match lookupMember key rest with
      | Some v' => Some v'
      | None => if String.eqb k key then Some v else None
      end
  end.

Definition stringMember (key : string) (members : list (string * JSON)) : option string :=
  match lookupMember key members with
  | Some (JString s) => Some s
  | _ => None
  end.

Definition asExtractedData (item : JSON) : option ExtractedData.t :=
  match item with
  | JObject members =>
      n ← stringMember "fullName" members;
      p ← stringMember "phoneNumber" members;
      m ← stringMember "outreachMessage" members;
      Some (ExtractedData.Build n p m)
  | _ => None
  end.

Definition asExtractedDataArray (v : JSON) : option (list ExtractedData.t) :=
  match v with
  | JArray items => mapM asExtractedData items
  | _ => None
  end.

(** ** A reference [JSON.parse]

    The JSON grammar of ECMA-404 on texts of the Latin-1 range (a [\u]
    escape above U+00FF has no counterpart in [string] and is refused).
    The gateway is stated for any [JSON_parse]; this one is used to run it
    on concrete responses. *)
Module JsonText.

Definition quote : ascii := "034"%char.
Definition backslash : ascii := "092"%char.

Definition isJsonSpace (c : ascii) : bool :=
  let n := nat_of_ascii c in
  Nat.eqb n 32 || Nat.eqb n 9 || Nat.eqb n 10 || Nat.eqb n 13.

Fixpoint skipSpace (s : string) : string :=
  match s with
  | String c s' => if isJsonSpace c then skipSpace s' else s
  | EmptyString => EmptyString
  end.

Definition isDigit (c : ascii) : bool :=
  let n := nat_of_ascii c in Nat.leb 48 n && Nat.leb n 57.

Definition hexValue (c : ascii) : option nat :=
  let n := nat_of_ascii c in
  if Nat.leb 48 n && Nat.leb n 57 then Some (n - 48)
  else if Nat.leb 65 n && Nat.leb n 70 then Some (n - 55)
  else if Nat.leb 97 n && Nat.leb n 102 then Some (n - 87)
  else None.

Definition dropChars (n : nat) (s : string) : string :=
  String.substring n (String.length s - n) s.

(** The digits at the head of [s], and the rest. *)
Fixpoint digits (s : string) : string * string :=
  match s with
  | String c s' =>
      if isDigit c then let '(ds, rest) := digits s' in (String c ds, rest)
      else (EmptyString, s)
  | EmptyString => (EmptyString, EmptyString)
  end.

(** The character a one-letter escape stands for. *)
Definition unescape (e : ascii) : option ascii :=
  let n := nat_of_ascii e in
  if Nat.eqb n 34 then Some quote
  else if Nat.eqb n 92 then Some backslash
  else if Nat.eqb n 47 then Some "/"%char
  else if Nat.eqb n 98 then Some "008"%char
  else if Nat.eqb n 102 then Some "012"%char
  else if Nat.eqb n 110 then Some "010"%char
  else if Nat.eqb n 114 then Some "013"%char
  else if Nat.eqb n 116 then Some "009"%char
  else None.

Definition hex4 (h1 h2 h3 h4 : ascii) : option nat :=
  a ← hexValue h1; b ← hexValue h2; c ← hexValue h3; d ← hexValue h4;
  Some (((a * 16 + b) * 16 + c) * 16 + d).

Definition consChar (c : ascii) (r : option (string * string))
  : option (string * string) :=
  match r with
  | Some (str, rest) => Some (String c str, rest)
  | None => None
  end.

(** The characters of a string literal after its opening quote, and the
    text after its closing quote. *)
Fixpoint parseChars (s : string) : option (string * string) :=
  match s with
  | EmptyString => None
  | String c s' =>
      if Ascii.eqb c quote then Some (EmptyString, s')
      else if Ascii.eqb c backslash then
        match s' with
        | String e s'' =>
            if Ascii.eqb e "u"%char then
              match s'' with
              | String h1 (String h2 (String h3 (String h4 rest))) =>
                  match hex4 h1 h2 h3 h4 with
                  | Some n =>
                      if Nat.ltb n 256
                      then consChar (ascii_of_nat n) (parseChars rest)
                      else None
                  | None => None
                  end
              | _ => None
              end
            else
              match unescape e with
              | Some d => consChar d (parseChars s'')
              | None => None
              end
        | EmptyString => None
        end
      else if Nat.ltb (nat_of_ascii c) 32 then None
      else consChar c (parseChars s')
  end.

(** A number literal at the head of [s]: an optional minus sign, an
    integer part without a leading zero, an optional fraction and an
    optional exponent. *)
Definition parseNumber (s : string) : option (string * string) :=
  let '(sign, s1) :=
    match s with
    | String "-" r => ("-", r)
    | _ => ("", s)
    end in
  let '(int, s2) := digits s1 in
  if String.eqb int "" then None
  else if String.prefix "0" int && negb (String.eqb int "0") then None
  else
    let frac :=
      match s2 with
      | String "." r =>
          let '(ds, r') := digits r in
          if String.eqb ds "" then None else Some ("." +:+ ds, r')
      | _ => Some ("", s2)
      end in
    match frac with
    | None => None
    | Some (fr, s3) =>
        let exp :=
          match s3 with
          | String e r =>
              if Ascii.eqb e "e"%char || Ascii.eqb e "E"%char then
                let '(sg, r1) :=
                  match r with
                  | String "+" r1 => ("+", r1)
                  | String "-" r1 => ("-", r1)
                  | _ => ("", r)
                  end in
                let '(ds, r2) := digits r1 in
                if String.eqb ds "" then None
                else Some (String e sg +:+ ds, r2)
              else Some ("", s3)
          | EmptyString => Some ("", s3)
          end in
        match exp with
        | None => None
        | Some (ex, s4) => Some (sign +:+ int +:+ fr +:+ ex, s4)
        end
    end.

(** A value at the head of [s] (after white space), and the rest.  The
    three parsers are mutually recursive on [fuel]. *)
Fixpoint parseValue (fuel : nat) (s : string) {struct fuel}
  : option (JSON * string) :=
  match fuel with
  | O => None
  | S fuel' =>
      match skipSpace s with
      | EmptyString => None
      | String c rest as s0 =>
          if Ascii.eqb c quote then
            match parseChars rest with
            | Some (str, rest') => Some (JString str, rest')
            | None => None
            end
          else if Ascii.eqb c "["%char then
            match skipSpace rest with
            | String "]" rest' => Some (JArray [], rest')
            | _ => parseItems fuel' [] rest
            end
          else if Ascii.eqb c "{"%char then
            match skipSpace rest with
            | String "}" rest' => Some (JObject [], rest')
            | _ => parseMembers fuel' [] rest
            end
          else if String.prefix "null" s0 then Some (JNull, dropChars 4 s0)
          else if String.prefix "true" s0 then Some (JBool true, dropChars 4 s0)
          else if String.prefix "false" s0 then Some (JBool false, dropChars 5 s0)
          else
            match parseNumber s0 with
            | Some (lit, rest') => Some (JNumber lit, rest')
            | None => None
            end
      end
  end
with parseItems (fuel : nat) (acc : list JSON) (s : string) {struct fuel}
  : option (JSON * string) :=
  match fuel with
  | O => None
  | S fuel' =>
      match parseValue fuel' s with
      | Some (v, rest) =>
          match skipSpace rest with
          | String "," rest' => parseItems fuel' (acc ++ [v]) rest'
          | String "]" rest' => Some (JArray (acc ++ [v]), rest')
          | _ => None
          end
      | None => None
      end
  end
with parseMembers (fuel : nat) (acc : list (string * JSON)) (s : string)
    {struct fuel} : option (JSON * string) :=
  match fuel with
  | O => None
  | S fuel' =>
      match skipSpace s with
      | String c rest =>
          if Ascii.eqb c quote then
            match parseChars rest with
            | Some (key, rest1) =>
                match skipSpace rest1 with
                | String ":" rest2 =>
                    match parseValue fuel' rest2 with
                    | Some (v, rest3) =>
                        match skipSpace rest3 with
                        | String "," rest4 =>
                            parseMembers fuel' (acc ++ [(key, v)]) rest4
                        | String "}" rest4 =>
                            Some (JObject (acc ++ [(key, v)]), rest4)
                        | _ => None
                        end
                    | None => None
                    end
                | _ => None
                end
            | None => None
            end
          else None
      | EmptyString => None
      end
  end.

(** [JSON.parse(text)]: one value, with white space around it. *)
Definition parse (text : string) : option JSON :=
  match parseValue (2 * String.length text + 2) text with
  | Some (v, rest) =>
      match skipSpace rest with
      | EmptyString => Some v
      | _ => None
      end
  | None => None
  end.

(** The double quote as a text, to write JSON texts with. *)
Definition q : string := String quote EmptyString.

End JsonText.


(** ** App.tsx: the component over time *)

(** The state of the component when it is mounted, before any call: the
    state of the first render. *)
Definition initialSession : Session :=
  {| app := {| leads := []; status := IDLE; errorMsg := None;
               senderName := ""; companyName := "" |};
     world := {| uuidCalls := 0; dateCalls := 0;
                 readFileCalls := []; gatewayCalls := [] |} |}.

(** *** The two call sites of [processFiles]

    [files] is the file list of the event, [None] when the event carries
    none.  Both handlers pass a list on only when it is not empty.  The
    flag [isDragActive], which only styles the drop zone, is not part of
    the model. *)

(** [handleInputChange] is created anew by every render, so the
    [processFiles] it calls closes over the settings on display. *)
Definition handleInputChange (B : Browser) (files : option (list Upload))
    (schedule : list nat) (s : Session) : Outcome :=
  match files with
  | Some fs =>
      if Nat.ltb 0 (length fs)
      then processFiles B (senderName (app s)) (companyName (app s))
             fs schedule s
      else Returned s
  | None => Returned s
  end.

(** [handleDrop] is memoized by [useCallback] with an empty list of
    dependencies: for as long as the component is mounted it is the
    function of the first render, and the [processFiles] it calls is the
    one of the first render, which closes over the settings of that
    render. *)
Definition handleDrop (B : Browser) (files : option (list Upload))
    (schedule : list nat) (s : Session) : Outcome :=
  match files with
  | Some fs =>
      if Nat.ltb 0 (length fs)
      then processFiles B (senderName (app initialSession))
             (companyName (app initialSession)) fs schedule s
      else Returned s
  | None => Returned s
  end.

(** [setSenderName] and [setCompanyName] of the two settings inputs. *)
Definition setSettings (sender company : string) (s : Session) : Session :=
  {| app := {| leads := leads (app s); status := status (app s);
               errorMsg := errorMsg (app s);
               senderName := sender; companyName := company |};
     world := world s |}.

(** The timer of the [finally] block: [setStatus(ProcessingStatus.IDLE)]. *)
Definition timerFires (s : Session) : Session :=
  {| app := setStatus IDLE (app s); world := world s |}.

(** *** The events of the page

    A call of [processFiles] that is suspended at
    [await Promise.all(promises)]: its files, the settings that its
    closure holds, its callbacks and its [errors] array. *)
Record Invocation : Type := Build_Invocation {
  invUploads : list Upload;
  invSender : string;
  invCompany : string;
  invTasks : list Task;
  invErrors : list string
}.

(** The page between two events: the state of the component and the
    effects so far, the calls of [processFiles] that are suspended, oldest
    first, and the number of timers that have been started and have not
    fired. *)
Record Page : Type := Build_Page {
  session : Session;
  invocations : list Invocation;
  timers : nat
}.

Definition initialPage : Page :=
  {| session := initialSession; invocations := []; timers := 0 |}.

(** What happens to the page.  JavaScript runs one of these at a time:
    the settings are edited; files are chosen in the file input or dropped
    on the drop zone; the callback of file [i] of the suspended call [j]
    runs from its [await] to the next; [Promise.all] of the suspended call
    [j] has resolved and [processFiles] runs to its end; a timer fires. *)
Inductive Event : Type :=
  | EditSettings (sender company : string)
  | InputChange (files : option (list Upload))
  | FilesDropped (files : option (list Upload))
  | CallbackResumes (j i : nat)
  | PromiseAllResolves (j : nat)
  | TimerFires.

(** The upload controls take no event while [status] is [PROCESSING]: the
    file input is disabled and the drop zone has the class
    [pointer-events-none]. *)
Definition controlsEnabled (a : AppState) : bool :=
  match status a with
  | PROCESSING => false
  | _ => true
  end.

(** The page when a handler has returned.  No callback has been resumed
    by then: either [processFiles] has returned at one of its guards, or
    it is suspended with every callback at its first [await]. *)
Definition handlerReturns (sender company : string)
    (uploads : list Upload) (o : Outcome) (p : Page) : Page :=
  match o with
  | Returned s' =>
      {| session := s'; invocations := invocations p; timers := timers p |}
  | Pending s' =>
      {| session := s';
         invocations := invocations p ++
           [{| invUploads := uploads;
               invSender := sender;
               invCompany := company;
               invTasks := replicate (length uploads) AwaitRead;
               invErrors := [] |}];
         timers := timers p |}
  end.

Definition react (B : Browser) (e : Event) (p : Page) : Page :=
  match e with
  | EditSettings sender company =>
      {| session := setSettings sender company (session p);
         invocations := invocations p; timers := timers p |}
  | InputChange files =>
      if controlsEnabled (app (session p)) then
        handlerReturns (senderName (app (session p)))
          (companyName (app (session p))) (default [] files)
          (handleInputChange B files [] (session p)) p
      else p
  | FilesDropped files =>
      if controlsEnabled (app (session p)) then
        handlerReturns (senderName (app initialSession))
          (companyName (app initialSession)) (default [] files)
          (handleDrop B files [] (session p)) p
      else p
  | CallbackResumes j i =>
      match invocations p !! j with
      | Some c =>
          let b := resume B (invSender c) (invCompany c) (invUploads c) i
                     {| tasks := invTasks c; errors := invErrors c;
                        fx := world (session p) |} in
          {| session := {| app := app (session p); world := fx b |};
             invocations :=
               <[j := {| invUploads := invUploads c;
                         invSender := invSender c;
                         invCompany := invCompany c;
                         invTasks := tasks b;
                         invErrors := errors b |}]> (invocations p);
             timers := timers p |}
      | None => p
      end
  | PromiseAllResolves j =>
      match invocations p !! j with
      | Some c =>
          match allResults (invTasks c) with
          | Some results =>
              {| session :=
                   {| app := finishBatch results (invErrors c) (app (session p));
                      world := world (session p) |};
                 invocations := delete j (invocations p);
                 timers := S (timers p) |}
          | None => p
          end
      | None => p
      end
  | TimerFires =>
      match timers p with
      | S k => {| session := timerFires (session p);
                  invocations := invocations p; timers := k |}
      | O => p
      end
  end.

Definition runEvents (B : Browser) (events : list Event) (p : Page) : Page :=
  foldl (λ p e, react B e p) p events.

(** The sessions of the component: what a sequence of events makes of the
    page that was mounted.  A call of [processFiles] that started while an
    earlier one was suspended is among them: the timer of a batch fires
    while the next batch is processed, and enables the controls.  Time is
    left out: a timer may fire at any moment after it was started, and
    [Promise.all] may resolve at any moment after the last callback has
    returned, so that every run of the page is a sequence of these
    events. *)
Definition reachable (B : Browser) (s : Session) : Prop :=
  ∃ events, session (runEvents B events initialPage) = s.

(** ** App.tsx: [exportToExcel] *)

(** A row of [exportData], by its six columns ("Full Name", "Phone
    Number", "SMS Message", "Source File", "Duplicate", "Extracted Date"). *)
Record ExportRow : Type := Build_ExportRow {
  colFullName : string;
  colPhoneNumber : string;
  colSmsMessage : string;
  colSourceFile : string;
  colDuplicate : string;
  colExtractedDate : string
}.

(** What [XLSX.writeFile] is called with: the file name and the workbook,
    which has one sheet. *)
Record Workbook : Type := Build_Workbook {
  fileName : string;
  sheetName : string;
  rows : list ExportRow
}.

Section Spreadsheet.
(** [new Date(iso).toLocaleDateString()], which depends on the locale. *)
Variable toLocaleDateString : string → string.

Definition exportRow (lead : Lead) : ExportRow :=
  {| colFullName := fullName lead;
     colPhoneNumber := phoneNumber lead;
     colSmsMessage := outreachMessage lead;
     colSourceFile := sourceFile lead;
     colDuplicate := if isDuplicate lead then "Yes" else "No";
     colExtractedDate := toLocaleDateString (extractedAt lead) |}.

(** [exportToExcel], at a moment when [new Date().toISOString()] is
    [nowIso]; [None] when it returns without writing a file. *)
Definition exportToExcel (nowIso : string) (leads : list Lead) : option Workbook :=
  if Nat.eqb (length leads) 0 then None
  else
    let exportData := exportRow <$> leads in
    let dateStr := hd "" (split "T"%char nowIso) in
    Some {| fileName := "Cold_Leads_" +:+ dateStr +:+ ".xlsx";
            sheetName := "Cold Leads";
            rows := exportData |}.
End Spreadsheet.

(** ** components/LeadTable.tsx *)

Inductive Badge : Type := BadgeDuplicate | BadgeNewLead.

#[global] Instance Badge_eq_dec : EqDecision Badge.
Proof. solve_decision. Defined.

(** A row of the table: the React key, the badge of the status cell,
    whether the row has the highlight of a duplicate, the three text
    cells, and the message that the button of the row opens. *)
Record TableRow : Type := Build_TableRow {
  rowKey : string;
  rowBadge : Badge;
  rowHighlighted : bool;
  rowFullName : string;
  rowPhoneNumber : string;
  rowSourceFile : string;
  rowMessage : string * string
}.

(** What the component renders: the "No leads extracted yet" card, or the
    table. *)
Inductive Rendered : Type :=
  | EmptyCard
  | Table (body : list TableRow).

Definition tableRow (lead : Lead) : TableRow :=
  {| rowKey := id lead;
     rowBadge := if isDuplicate lead then BadgeDuplicate else BadgeNewLead;
     rowHighlighted := isDuplicate lead;
     rowFullName := fullName lead;
     rowPhoneNumber := phoneNumber lead;
     rowSourceFile := sourceFile lead;
     rowMessage := (fullName lead, outreachMessage lead) |}.

Definition LeadTable (leads : list Lead) : Rendered :=
  if Nat.eqb (length leads) 0 then EmptyCard
  else Table (tableRow <$> leads).

(** ** services/geminiService.ts: [getSystemInstruction] *)

(** The double quote as a text. *)
Definition dq : string := String "034"%char EmptyString.

(** The truth of [name && name.trim().length > 0]. *)
Definition hasValue (name : string) : bool :=
  negb (String.eqb name "") && Nat.ltb 0 (String.length (trim name)).

Definition senderContext (senderName : string) : string :=
  if hasValue senderName
  then "Sender Name: " +:+ dq +:+ senderName +:+ dq
  else "Sender Name: NOT PROVIDED (Do NOT invent a name).".

Definition companyContext (companyName : string) : string :=
  if hasValue companyName
  then "Company Name: " +:+ dq +:+ companyName +:+ dq
  else "Company Name: NOT PROVIDED (Do NOT invent a company name).".

Definition introRule (senderName companyName : string) : string :=
  if hasValue senderName && hasValue companyName then
    "- " +:+ dq +:+ "Hi [Name], " +:+ senderName +:+ " from " +:+ companyName
    +:+ " here" +:+ dq
  else if hasValue senderName then
    "- " +:+ dq +:+ "Hi [Name], it's " +:+ senderName +:+ " reaching out" +:+ dq
  else if hasValue companyName then
    "- " +:+ dq +:+ "Hi [Name], reaching out from " +:+ companyName +:+ dq
  else
    "- " +:+ dq +:+ "Hi [Name], reaching out regarding a CDL opportunity" +:+ dq
    +:+ " (Skip names entirely)".

(** The template of the system instruction, line by line; the characters
    outside Latin-1 stand as their UTF-8 bytes. *)
Definition getSystemInstruction (senderName companyName : string) : string :=
  join newline
    [ "";
      "You are an expert AI Recruitment Assistant. ";
      "Your task is to extract driver leads from images or text and generate compliant SMS messages.";
      "";
      "### EXTRACTION RULES:";
      "1. Extract " +:+ dq +:+ "Full Name" +:+ dq +:+ " and " +:+ dq +:+ "Phone Number" +:+ dq +:+ " for drivers.";
      "2. STRICTLY FILTER: Only extract drivers with MOBILE/CELL numbers. ";
      "   - IGNORE Landlines, Work, Office, or Corporate numbers.";
      "   - IGNORE entries with no phone number.";
      "3. PRIVACY: DO NOT extract SSNs, DOBs, or Addresses.";
      "4. Normalization: Format all phone numbers as (XXX) XXX-XXXX.";
      "";
      "### CONTEXT - INPUTS:";
      senderContext senderName;
      companyContext companyName;
      "Job Types available (Mention these variously):";
      "- **Drop and Hook**";
      "- **Dedicated Lanes**";
      "- **Mail Loads**";
      "";
      "### SMS GENERATION RULES (CRITICAL - STRICT VARIETY REQUIRED):";
      "For EACH extracted driver, generate a **COMPLETELY UNIQUE** 'outreachMessage'.";
      "**The user will be flagged for spam if messages look like templates. You MUST vary the phrasing.**";
      "";
      "1. **NO REPETITION**: Do not use the same opening sentence structure twice in a row.";
      "2. **Handle Identity (Strictly based on Inputs)**:";
      "   " +:+ introRule senderName companyName;
      "   - IF Sender Name is empty: DO NOT use " +:+ dq +:+ "I'm [Name]" +:+ dq +:+ " or " +:+ dq +:+ "This is [Name]" +:+ dq +:+ ".";
      "   - IF Company Name is empty: DO NOT use " +:+ dq +:+ "from [Company]" +:+ dq +:+ " or " +:+ dq +:+ "with [Company]" +:+ dq +:+ ".";
      "3. **Vary the " +:+ dq +:+ "Hook" +:+ dq +:+ " (Integrate Job Details)**:";
      "   - " +:+ dq +:+ "We have new **drop and hook** runs available..." +:+ dq;
      "   - " +:+ dq +:+ "Are you interested in **dedicated lanes**?" +:+ dq;
      "   - " +:+ dq +:+ "Looking for drivers for **mail loads**..." +:+ dq;
      "   - " +:+ dq +:+ "Are you open to CDL opportunities?" +:+ dq;
      "   - " +:+ dq +:+ "Would you be open to hearing about a new lane?" +:+ dq;
      "   - *NOTE: Do not list all perks in one message. Pick ONE or NONE per message to keep it natural.*";
      "4. **Vary the Syntax**: Change the order of the introduction and the question.";
      "";
      "**Compliance Rules (Must apply to ALL):**";
      "1. Must END with " +:+ dq +:+ "Reply YES or STOP to opt out" +:+ dq +:+ ".";
      "";
      "### EXAMPLE VARIATIONS (Examples assume Name=" +:+ dq +:+ "Paul" +:+ dq +:+ ", Company=" +:+ dq +:+ "TLG" +:+ dq +:+ ". ADAPT if inputs are empty):";
      "- " +:+ dq +:+ "Hi [Name], " +:+ (if hasValue senderName then senderName else "recruiter") +:+ " here" +:+ (if hasValue companyName then " with " +:+ companyName else "") +:+ ". We have some dedicated lanes opening up—are you available? Reply YES or STOP to opt out" +:+ dq;
      "- " +:+ dq +:+ "[Name], " +:+ (if hasValue senderName then "this is " +:+ senderName else "checking in") +:+ (if hasValue companyName then " from " +:+ companyName else "") +:+ ". Are you interested in drop and hook runs specifically? Reply YES or STOP to opt out" +:+ dq;
      "- " +:+ dq +:+ "Hello [Name], " +:+ (if hasValue companyName then companyName else "we") +:+ " have some mail loads starting soon—would you be open to hearing more? Reply YES or STOP to opt out" +:+ dq;
      "- " +:+ dq +:+ "Hey [Name], came across your info—are you currently in the market for a CDL position? Reply YES or STOP to opt out" +:+ dq;
      "- " +:+ dq +:+ "[Name], are you open to discussing local drop and hook options? Reply YES or STOP to opt out" +:+ dq;
      "" ].

(** * Notions used in the statements *)

(** A lead that the merge marked as new. *)
Definition isNew (l : Lead) : Prop := isDuplicate l = false.

(** The lead [l] is the lead [c] but for its duplicate flag. *)
Definition sameButFlag (c l : Lead) : Prop :=
  id l = id c ∧ fullName l = fullName c ∧ phoneNumber l = phoneNumber c ∧
  outreachMessage l = outreachMessage c ∧ sourceFile l = sourceFile c ∧
  extractedAt l = extractedAt c.




(** What the callback of a file has established in each of its states. *)
Definition taskInv (up : Upload) (t : Task) : Prop :=
  match t with
  | AwaitRead => True
  | AwaitExtract => ∃ decoded, readFile (file up) (reader up) = Resolved decoded
  | Done result => stripStamp <$> result = uploadCandidates up
  end.

(** The entries that the callbacks that have returned pushed to [errors]. *)
Definition pushed (up : Upload) (t : Task) : list string :=
  match t with
  | Done _ => option_list (fileError up)
  | _ => []
  end.

Definition errorsOf (uploads : list Upload) (ts : list Task) : list string :=
  concat (zip_with pushed uploads ts).

Definition batchInv (uploads : list Upload) (b : Batch) : Prop :=
  Forall2 taskInv uploads (tasks b) ∧ errors b ≡ₚ errorsOf uploads (tasks b).

(** How far the callback of a file has come. *)
Definition rank (t : option Task) : nat :=
  match t with
  | Some AwaitRead => 0
  | Some AwaitExtract => 1
  | _ => 2
  end.

(** Two callbacks in the same state, with results that agree with the
    ids aside. *)
Definition taskRel (t1 t2 : Task) : Prop :=
  match t1, t2 with
  | AwaitRead, AwaitRead => True
  | AwaitExtract, AwaitExtract => True
  | Done r1, Done r2 => Forall2 sameUpToId r1 r2
  | _, _ => False
  end.

Definition batchRel (b1 b2 : Batch) : Prop :=
  Forall2 taskRel (tasks b1) (tasks b2) ∧
  errors b1 = errors b2 ∧ fx b1 = fx b2.

Definition sessionRel (s1 s2 : Session) : Prop :=
  Forall2 sameUpToId (leads (app s1)) (leads (app s2)) ∧
  status (app s1) = status (app s2) ∧
  errorMsg (app s1) = errorMsg (app s2) ∧
  senderName (app s1) = senderName (app s2) ∧
  companyName (app s1) = companyName (app s2) ∧
  world s1 = world s2.

Definition outcomeRel (o1 o2 : Outcome) : Prop :=
  match o1, o2 with
  | Returned s1, Returned s2 => sessionRel s1 s2
  | Pending s1, Pending s2 => sessionRel s1 s2
  | _, _ => False
  end.

(** The session that an outcome leaves behind. *)
Definition outcomeSession (o : Outcome) : Session :=
  match o with
  | Returned s => s
  | Pending s => s
  end.

(** The leads that a callback has returned, and those of a whole batch. *)
Definition returned (t : Task) : list Lead :=
  match t with
  | Done result => result
  | _ => []
  end.

Definition batchLeads (ts : list Task) : list Lead := concat (returned <$> ts).

(** The gateway call that the callback of a file makes once [readFile]
    has resolved; none when [readFile] rejects. *)
Definition fileCall (sender company : string) (up : Upload) : option GatewayCall :=
  match readFile (file up) (reader up) with
  | Resolved decoded =>
      Some {| callContent := content decoded;
              callMimeType := mimeType decoded;
              callSenderName := sender;
              callCompanyName := company |}
  | Rejected _ => None
  end.

(** The calls that the callback of a file has made in each of its states. *)
Definition called (sender company : string) (up : Upload) (t : Task)
  : list GatewayCall :=
  match t with
  | AwaitRead => []
  | _ => option_list (fileCall sender company up)
  end.

(** [s.includes(pat)] *)
Fixpoint includes (s pat : string) : bool :=
  String.prefix pat s ||
  match s with
  | EmptyString => false
  | String _ s' => includes s' pat
  end.

(** No backtick occurs in [s]. *)
Fixpoint noBacktick (s : string) : bool :=
  match s with
  | EmptyString => true
  | String c s' => negb (Ascii.eqb c "`"%char) && noBacktick s'
  end.

(** [s] is made of white space only. *)
Fixpoint allWhiteSpace (s : string) : bool :=
  match s with
  | EmptyString => true
  | String c s' => isWhiteSpace c && allWhiteSpace s'
  end.

(** The number of backticks at the head of [s]. *)
Fixpoint ticks (s : string) : nat :=
  match s with
  | EmptyString => 0
  | String c s' => if Ascii.eqb c "`"%char then S (ticks s') else 0
  end.

(** [s] without its first [k] characters. *)
Fixpoint skipChars (k : nat) (s : string) : string :=
  match k, s with
  | S k', String _ s' => skipChars k' s'
  | _, _ => s
  end.

(** [c] does not occur in [s]. *)
Fixpoint charFree (c : ascii) (s : string) : bool :=
  match s with
  | EmptyString => true
  | String c' s' => negb (Ascii.eqb c' c) && charFree c s'
  end.

(** The leads of the page: those of the history and those that the
    callbacks of the suspended calls have returned. *)
Definition pageLeads (p : Page) : list Lead :=
  leads (app (session p)) ++
  concat ((λ c, batchLeads (invTasks c)) <$> invocations p).

(** The ids of the leads of the page are the values that
    [crypto.randomUUID] has returned so far, each of them once. *)
Definition pageIds (B : Browser) (p : Page) : Prop :=
  id <$> pageLeads p ≡ₚ randomUUID B <$> seq 0 (uuidCalls (world (session p))).

(** [readFile] has been called on every file, in file-array order, and
    the gateway once for every callback that is past its [readFile]. *)
Definition callsInv (sender company : string) (uploads : list Upload)
    (e : Effects) (b : Batch) : Prop :=
  readFileCalls (fx b) =
    readFileCalls e ++ ((λ up, File.name (file up)) <$> uploads) ∧
  ∃ new, gatewayCalls (fx b) = gatewayCalls e ++ new ∧
         new ≡ₚ concat (zip_with (called sender company) uploads (tasks b)).

(** * Example data *)

Definition browser0 : Browser :=
  {| randomUUID := λ k, "uuid-" +:+ pretty k;
     nowISO := λ k, "2025-01-01T00:00:0" +:+ pretty k +:+ "Z" |}.

Definition session0 : Session :=
  {| app := {| leads := []; status := IDLE; errorMsg := None;
               senderName := "Paul"; companyName := "TLG" |};
     world := {| uuidCalls := 0; dateCalls := 0;
                 readFileCalls := []; gatewayCalls := [] |} |}.

Definition ann : ExtractedData.t :=
  ExtractedData.Build "Ann Lee" "(555) 010-0001"
    "Hi Ann, Paul from TLG here. Reply YES or STOP to opt out".
Definition bob : ExtractedData.t :=
  ExtractedData.Build "Bob Ray" "(555) 010-0002"
    "Bob, are you open to dedicated lanes? Reply YES or STOP to opt out".

(** A CSV file with two leads, an image whose extraction fails, a text
    file without leads, and a file of a type that cannot be decoded. *)
Definition fileA : Upload :=
  {| file := File.Build "a.csv" "text/csv";
     reader := ReaderLoad "Ann Lee,5550100001";
     extraction := Resolved [ann; bob] |}.
Definition fileB : Upload :=
  {| file := File.Build "b.png" "image/png";
     reader := ReaderLoad (dataURL "image/png" "iVBORw0KGgo=");
     extraction := Rejected ExtractionFailure |}.
Definition fileC : Upload :=
  {| file := File.Build "c.txt" "";
     reader := ReaderLoad "no drivers here";
     extraction := Resolved [] |}.
Definition fileD : Upload :=
  {| file := File.Build "d.pdf" "application/pdf";
     reader := ReaderLoad "%PDF";
     extraction := Resolved [ann] |}.

Definition lead1 : Lead :=
  Build_Lead "id-1" "Ann Lee" "(555) 010-0001" "Hi Ann" "a.csv" false "t1".
Definition lead2 : Lead :=
  Build_Lead "id-2" "Ann L." "(555) 010-0001" "Hello Ann" "b.csv" false "t2".
Definition lead3 : Lead :=
  Build_Lead "id-3" "Bob Ray" "(555) 010-0002" "Hi Bob" "b.csv" false "t2".
Definition lead4 : Lead :=
  Build_Lead "id-4" "Bobby" "(555) 010-0002" "Hey Bob" "b.csv" false "t2".

(** A run of the page in which two calls of [processFiles] overlap: the
    batch [[fileA]] is chosen and processed; the batch [[fileA; fileB]] is
    chosen; while it is suspended the timer of the first batch fires, and
    [[fileA]] is dropped on the drop zone and processed to its end; then
    the second batch is processed to its end. *)
Definition overlappingEvents : list Event :=
  [ InputChange (Some [fileA]);
    CallbackResumes 0 0; CallbackResumes 0 0; PromiseAllResolves 0;
    InputChange (Some [fileA; fileB]);
    CallbackResumes 0 0; CallbackResumes 0 1;
    TimerFires;
    FilesDropped (Some [fileA]);
    CallbackResumes 0 0;
    CallbackResumes 1 0; CallbackResumes 1 0; PromiseAllResolves 1;
    CallbackResumes 0 1; PromiseAllResolves 0 ]%nat.

(** The response of the model for a record that has a name only. *)
Definition partialResponse : string :=
  "[{" +:+ JsonText.q +:+ "fullName" +:+ JsonText.q +:+ ":" +:+
  JsonText.q +:+ "Ann Lee" +:+ JsonText.q +:+ "}]".

(** * Properties *)

(** ** The string helpers meet their JavaScript descriptions *)

Lemma string_app_cons (c : ascii) (a b : string) :
  String c a +:+ b = String c (a +:+ b).
Proof. reflexivity. Qed.

Lemma string_length_app (a b : string) :
  String.length (a +:+ b) = (String.length a + String.length b)%nat.
Proof.
  induction a as [|c a IH]; [done|].
  rewrite string_app_cons. cbn [String.length]. by rewrite IH.
Qed.

Lemma substring_whole (s : string) :
  String.substring 0 (String.length s) s = s.
Proof. induction s as [|c s IH]; [done|]. cbn. by rewrite IH. Qed.

Lemma substring_after (pre p : string) :
  String.substring (String.length pre) (String.length p) (pre +:+ p) = p.
Proof. induction pre as [|c pre IH]; [apply substring_whole|]. exact IH. Qed.

Lemma substring_split (s : string) (k : nat) :
  (k ≤ String.length s)%nat →
  String.substring 0 k s +:+ String.substring k (String.length s - k) s = s.
Proof.
  revert k. induction s as [|c s IH]; intros [|k] Hk.
  - done.
  - cbn in Hk. lia.
  - change (String c (String.substring 0 (String.length s) s) = String c s).
    by rewrite substring_whole.
  - change (String c (String.substring 0 k s +:+
                      String.substring k (String.length s - k) s) = String c s).
    cbn in Hk. by rewrite IH by lia.
Qed.

(** [s.startsWith(p)] holds exactly when [s] is [p] followed by a rest. *)
Lemma startsWith_spec (s p : string) :
  startsWith s p = true ↔ ∃ rest, s = p +:+ rest.
Proof.
  unfold startsWith. revert s. induction p as [|c p IH]; intros s.
  - split; [intros _; by exists s|intros _; by destruct s].
  - destruct s as [|c' s].
    + split; [discriminate|]. intros [rest Hrest]. discriminate Hrest.
    + cbn [String.prefix].
      destruct (Ascii.ascii_dec c c') as [->|Hne].
      * rewrite IH. split; intros [rest Hrest]; exists rest.
        -- by rewrite string_app_cons, Hrest.
        -- rewrite string_app_cons in Hrest. by injection Hrest.
      * split; [discriminate|]. intros [rest Hrest].
        rewrite string_app_cons in Hrest. by injection Hrest.
Qed.

(** [s.endsWith(p)] holds exactly when [s] is a text followed by [p]. *)
Lemma endsWith_spec (s p : string) :
  endsWith s p = true ↔ ∃ pre, s = pre +:+ p.
Proof.
  unfold endsWith. rewrite andb_true_iff, Nat.leb_le, String.eqb_eq. split.
  - intros [Hlen Hsub].
    exists (String.substring 0 (String.length s - String.length p) s).
    pose proof (substring_split s (String.length s - String.length p)
                  ltac:(lia)) as Hsplit.
    replace (String.length s - (String.length s - String.length p))%nat
      with (String.length p) in Hsplit by lia.
    rewrite Hsub in Hsplit. symmetry. exact Hsplit.
  - intros [pre ->]. rewrite string_length_app. split; [lia|].
    replace (String.length pre + String.length p - String.length p)%nat
      with (String.length pre) by lia.
    apply substring_after.
Qed.

Lemma split_nonempty (sep : ascii) (s : string) :
  ∃ seg segs, split sep s = seg :: segs.
Proof.
  induction s as [|c s (seg & segs & IH)]; cbn; [by eexists _, _|].
  rewrite IH. destruct (Ascii.eqb c sep); by eexists _, _.
Qed.

(** Joining the pieces of a split with the separator gives the text back. *)
Lemma join_split (sep : ascii) (s : string) :
  join (String sep EmptyString) (split sep s) = s.
Proof.
  unfold join. induction s as [|c s IH]; [done|]. cbn [split].
  destruct (split_nonempty sep s) as (seg & segs & Hs). rewrite Hs in IH |- *.
  destruct (Ascii.eqb c sep) eqn:Hc.
  - apply Ascii.eqb_eq in Hc as ->. cbn. cbn in IH. by rewrite IH.
  - cbn in IH |- *. destruct segs; cbn; by rewrite <- IH.
Qed.

(** ** The lead merger *)

Section Merger.
Implicit Types (H B : list Lead) (S : gset string) (p : string).

Lemma withIsDuplicate_phone (l : Lead) (b : bool) :
  phoneNumber (withIsDuplicate l b) = phoneNumber l.
Proof. reflexivity. Qed.

Lemma withIsDuplicate_flag (l : Lead) (b : bool) :
  isDuplicate (withIsDuplicate l b) = b.
Proof. reflexivity. Qed.

Lemma markLead_spec S (l : Lead) :
  markLead S l =
    (withIsDuplicate l (bool_decide (phoneNumber l ∈ S)),
     {[phoneNumber l]} ∪ S).
Proof.
  unfold markLead. case_decide as Hin.
  - rewrite bool_decide_eq_true_2 by done. f_equal. set_solver.
  - by rewrite bool_decide_eq_false_2.
Qed.

Lemma processBatchFrom_cons S (l : Lead) B :
  processBatchFrom S (l :: B) =
    withIsDuplicate l (bool_decide (phoneNumber l ∈ S))
    :: processBatchFrom ({[phoneNumber l]} ∪ S) B.
Proof. cbn [processBatchFrom]. by rewrite markLead_spec. Qed.

Lemma processBatchFrom_length S B :
  length (processBatchFrom S B) = length B.
Proof.
  revert S. induction B as [|l B IH]; intros S; [done|].
  rewrite processBatchFrom_cons. cbn. by rewrite IH.
Qed.

Lemma processBatchFrom_phones S B :
  phoneNumber <$> processBatchFrom S B = phoneNumber <$> B.
Proof.
  revert S. induction B as [|l B IH]; intros S; [done|].
  rewrite processBatchFrom_cons. cbn. by rewrite IH.
Qed.

Lemma processBatchFrom_app S B1 B2 :
  processBatchFrom S (B1 ++ B2) =
    processBatchFrom S B1 ++
    processBatchFrom (list_to_set (phoneNumber <$> B1) ∪ S) B2.
Proof.
  revert S. induction B1 as [|l B1 IH]; intros S.
  - cbn. f_equal. set_solver.
  - rewrite <- app_comm_cons, !processBatchFrom_cons, IH.
    cbn. do 3 f_equal. set_solver.
Qed.

(** The lead at position [i] of the walk is the candidate at position
    [i] with its flag set to "seen before". *)
Lemma processBatchFrom_lookup S B (i : nat) (c : Lead) :
  B !! i = Some c →
  processBatchFrom S B !! i =
    Some (withIsDuplicate c
            (bool_decide (phoneNumber c ∈ S ∨
                          phoneNumber c ∈ phoneNumber <$> take i B))).
Proof.
  revert S i. induction B as [|l B IH]; intros S i Hi; [done|].
  rewrite processBatchFrom_cons. destruct i as [|i]; cbn in Hi |- *.
  - injection Hi as ->. do 2 f_equal. apply bool_decide_ext.
    rewrite elem_of_nil. tauto.
  - rewrite (IH _ _ Hi). do 2 f_equal. apply bool_decide_ext.
    rewrite elem_of_cons, elem_of_union, elem_of_singleton. tauto.
Qed.

Lemma elem_of_phonesOf H p : p ∈ phonesOf H ↔ p ∈ phoneNumber <$> H.
Proof. unfold phonesOf. by rewrite elem_of_list_to_set. Qed.

Lemma phonesOf_app H1 H2 : phonesOf (H1 ++ H2) = phonesOf H1 ∪ phonesOf H2.
Proof. unfold phonesOf. by rewrite fmap_app, list_to_set_app_L. Qed.

Lemma phonesOf_merge H B : phonesOf (merge H B) = phonesOf B ∪ phonesOf H.
Proof.
  unfold merge, processedBatch. rewrite phonesOf_app. f_equal.
  unfold phonesOf. by rewrite processBatchFrom_phones.
Qed.
End Merger.

Lemma processBatchFrom_sameButFlag (S : gset string) (B : list Lead) :
  Forall2 sameButFlag B (processBatchFrom S B).
Proof.
  revert S. induction B as [|l B IH]; intros S; [constructor|].
  rewrite processBatchFrom_cons. constructor; [|apply IH].
  by repeat split.
Qed.

(** C1.  [merge H B] is the materialized batch, in the order in which the
    batch was walked, followed by the whole of [H]: its first [length B]
    leads are the candidates of [B], position by position, each with its
    id, name, phone number, message, source file and time unchanged, and
    the rest is [H] itself, lead for lead and in its order. *)
Theorem merge_preserves_history (H B : list Lead) :
  length (merge H B) = (length B + length H)%nat ∧
  Forall2 (λ c l, id l = id c ∧ fullName l = fullName c ∧
                  phoneNumber l = phoneNumber c ∧
                  outreachMessage l = outreachMessage c ∧
                  sourceFile l = sourceFile c ∧
                  extractedAt l = extractedAt c)
    B (take (length B) (merge H B)) ∧
  drop (length B) (merge H B) = H ∧
  (∀ (i : nat) (l : Lead),
     H !! i = Some l → merge H B !! (length B + i)%nat = Some l).
Proof.
  assert (Hlen : length (processedBatch H B) = length B)
    by apply processBatchFrom_length.
  unfold merge. split_and!.
  - by rewrite length_app, Hlen.
  - rewrite <- Hlen, take_app_length. apply processBatchFrom_sameButFlag.
  - rewrite <- Hlen. by rewrite drop_app_length.
  - intros i l Hl. rewrite <- Hlen.
    by rewrite lookup_app_r, Nat.add_comm, Nat.add_sub by lia.
Qed.

(** C2.  Walking [B] in order, the candidate at position [i] is
    materialized with [isDuplicate = true] when its phone number occurs in
    [H] or at an earlier position of [B], and with [isDuplicate = false]
    when it occurs in neither; nothing else of the candidate changes. *)
Theorem merge_first_occurrence_wins (H B : list Lead) (i : nat) (c : Lead) :
  B !! i = Some c →
  let seen :=
    (∃ h, h ∈ H ∧ phoneNumber h = phoneNumber c) ∨
    (∃ (j : nat) (c' : Lead),
        (j < i)%nat ∧ B !! j = Some c' ∧ phoneNumber c' = phoneNumber c) in
  ∃ l, merge H B !! i = Some l ∧
       l = withIsDuplicate c (isDuplicate l) ∧
       (seen → isDuplicate l = true) ∧
       (¬ seen → isDuplicate l = false).
Proof.
  intros Hc seen.
  pose proof (processBatchFrom_lookup (phonesOf H) B i c Hc) as Hl.
  assert (Hseen : seen ↔ phoneNumber c ∈ phonesOf H ∨
                           phoneNumber c ∈ phoneNumber <$> take i B).
  { unfold seen. rewrite elem_of_phonesOf, !list_elem_of_fmap. split.
    - intros [(h & Hh & Heq)|(j & c' & Hj & Hc' & Heq)]; [left; eauto|].
      right. exists c'. split; [done|].
      apply list_elem_of_lookup. exists j. by rewrite lookup_take_lt.
    - intros [(h & Heq & Hh)|(c' & Heq & Hc')]; [left; eauto|].
      right. apply list_elem_of_lookup in Hc' as [j Hj].
      apply lookup_take_Some in Hj as [Hj ?]. eauto 6. }
  eexists. split.
  { unfold merge, processedBatch. rewrite lookup_app_l; [exact Hl|].
    rewrite processBatchFrom_length. by eapply lookup_lt_Some. }
  cbn. split; [done|]. split; intros Hs.
  - apply bool_decide_eq_true_2. by apply Hseen.
  - apply bool_decide_eq_false_2. by rewrite <- Hseen.
Qed.

Section MergerRuns.
Implicit Types (H B : list Lead) (S : gset string) (p : string).

Lemma sameUpToId_phone (l l' : Lead) :
  sameUpToId l l' → phoneNumber l = phoneNumber l'.
Proof. unfold sameUpToId, withId. intros Heq. by injection Heq. Qed.

Lemma sameUpToId_withIsDuplicate (l l' : Lead) (b : bool) :
  sameUpToId l l' → sameUpToId (withIsDuplicate l b) (withIsDuplicate l' b).
Proof.
  unfold sameUpToId, withId, withIsDuplicate. cbn.
  intros Heq. injection Heq as -> -> -> -> _ ->. reflexivity.
Qed.

Lemma sameUpToId_phones H H' :
  Forall2 sameUpToId H H' → phoneNumber <$> H = phoneNumber <$> H'.
Proof.
  induction 1 as [|l l' H H' Hl _ IH]; [done|].
  cbn. by rewrite (sameUpToId_phone _ _ Hl), IH.
Qed.

Lemma processBatchFrom_sameUpToId S B B' :
  Forall2 sameUpToId B B' →
  Forall2 sameUpToId (processBatchFrom S B) (processBatchFrom S B').
Proof.
  intros HB. revert S. induction HB as [|l l' B B' Hl _ IH]; intros S.
  - constructor.
  - rewrite !processBatchFrom_cons, <- (sameUpToId_phone _ _ Hl).
    constructor; [by apply sameUpToId_withIsDuplicate | apply IH].
Qed.

(** The flags of a walk that starts from a set containing [p]. *)
Lemma processBatchFrom_seen S B p (x : Lead) :
  p ∈ S → x ∈ processBatchFrom S B → phoneNumber x = p →
  isDuplicate x = true.
Proof.
  revert S. induction B as [|l B IH]; intros S Hp Hx Hxp.
  - by apply elem_of_nil in Hx.
  - rewrite processBatchFrom_cons in Hx.
    apply elem_of_cons in Hx as [->|Hx].
    + cbn in *. subst p. by apply bool_decide_eq_true_2.
    + eapply (IH ({[phoneNumber l]} ∪ S)); [set_solver|done..].
Qed.

Lemma mergeLog_concat H (batches : list (list Lead)) :
  concat (mergeLog H batches) =
    processBatchFrom (phonesOf H) (concat batches).
Proof.
  revert H. induction batches as [|B batches IH]; intros H; [done|].
  cbn [mergeLog concat]. rewrite IH, processBatchFrom_app, phonesOf_merge.
  done.
Qed.

Lemma foldl_merge_blocks H (batches : list (list Lead)) :
  foldl merge H batches = concat (reverse (mergeLog H batches)) ++ H.
Proof.
  revert H. induction batches as [|B batches IH]; intros H; [done|].
  cbn [foldl mergeLog]. rewrite IH, reverse_cons, concat_app.
  cbn [concat]. rewrite app_nil_r, <- app_assoc. done.
Qed.

(** The history is its blocks, newest block first. *)
Lemma runMerges_blocks (batches : list (list Lead)) :
  runMerges batches = concat (reverse (mergeLog [] batches)).
Proof. unfold runMerges. by rewrite foldl_merge_blocks, app_nil_r. Qed.

Lemma concat_reverse_Permutation {A} (ls : list (list A)) :
  concat (reverse ls) ≡ₚ concat ls.
Proof.
  induction ls as [|l ls IH]; [done|].
  rewrite reverse_cons, concat_app. cbn. rewrite app_nil_r, IH.
  apply Permutation_app_comm.
Qed.

Lemma runMerges_mergeOrder (batches : list (list Lead)) :
  runMerges batches ≡ₚ mergeOrder batches.
Proof. rewrite runMerges_blocks. apply concat_reverse_Permutation. Qed.

(** In merge order the history is one walk over all candidates. *)
Lemma mergeOrder_walk (batches : list (list Lead)) :
  mergeOrder batches = processBatchFrom ∅ (concat batches).
Proof. unfold mergeOrder. by rewrite mergeLog_concat. Qed.

Lemma duplicates_and_new (ls : list Lead) :
  (length (filter isNew ls) + duplicateCount ls)%nat = length ls.
Proof.
  unfold duplicateCount, isNew. induction ls as [|l ls IH]; [done|].
  rewrite !filter_cons. destruct (isDuplicate l) eqn:Hd;
    repeat case_decide; try done; cbn; lia.
Qed.

Lemma newLeads_count (ls : list Lead) :
  newLeads ls = length (filter isNew ls).
Proof.
  unfold newLeads, totalLeads. pose proof (duplicates_and_new ls). lia.
Qed.

(** A walk marks as new exactly the phone numbers it adds to the set. *)
Lemma processBatchFrom_new_count S B :
  (length (filter isNew (processBatchFrom S B)) + size S)%nat =
    size (phonesOf B ∪ S).
Proof.
  revert S. induction B as [|l B IH]; intros S.
  - cbn. f_equal. unfold phonesOf. set_solver.
  - rewrite processBatchFrom_cons, filter_cons.
    replace (phonesOf (l :: B) ∪ S)
      with (phonesOf B ∪ ({[phoneNumber l]} ∪ S))
      by (unfold phonesOf; set_solver).
    rewrite <- IH. destruct (decide (phoneNumber l ∈ S)) as [Hin|Hin].
    + rewrite (bool_decide_eq_true_2 _ Hin).
      case_decide as Hd; [discriminate Hd|].
      replace ({[phoneNumber l]} ∪ S) with S by set_solver. done.
    + rewrite (bool_decide_eq_false_2 _ Hin).
      case_decide as Hd; [|by destruct Hd].
      cbn. rewrite size_union, size_singleton by set_solver. lia.
Qed.
End MergerRuns.

(** C9.  The merge is a function of the history and the batch, and the
    ids have no part in it: two runs whose histories and batches agree
    lead for lead with the ids aside produce histories that agree lead for
    lead, in the same order and with the same duplicate flags, with the
    ids aside. *)
Theorem merge_deterministic (H H' B B' : list Lead) :
  Forall2 sameUpToId H H' →
  Forall2 sameUpToId B B' →
  Forall2 sameUpToId (merge H B) (merge H' B').
Proof.
  intros HH HB. unfold merge, processedBatch, phonesOf.
  rewrite <- (sameUpToId_phones _ _ HH).
  apply Forall2_app; [|done]. by apply processBatchFrom_sameUpToId.
Qed.

Lemma filter_phone_absent (p : string) (P : Lead → Prop)
    `{∀ l, Decision (P l)} (ls : list Lead) :
  (∀ x, x ∈ ls → phoneNumber x = p → ¬ P x) →
  filter (λ l, phoneNumber l = p ∧ P l) ls = [].
Proof.
  intros Hno. induction ls as [|l ls IH]; [done|].
  rewrite filter_cons. case_decide as Hd.
  - destruct Hd as [Hp HP]. exfalso. eapply Hno; [left|done..].
  - apply IH. intros x Hx. apply Hno. by right.
Qed.

(** C10.  In the history after any sequence of merges from the empty
    history, every phone number of the history has exactly one lead with
    [isDuplicate = false], and in merge order that lead comes before every
    other lead of the same phone number (all of which are duplicates); so
    the "new leads" figure of the header, total minus duplicates, is the
    number of distinct phone numbers. *)
Theorem history_one_new_lead_per_phone (batches : list (list Lead)) (p : string) :
  p ∈ phoneNumber <$> runMerges batches →
  runMerges batches ≡ₚ mergeOrder batches ∧
  length (filter (λ l, phoneNumber l = p ∧ isDuplicate l = false)
            (runMerges batches)) = 1%nat ∧
  (∃ earlier l later,
      mergeOrder batches = earlier ++ l :: later ∧
      phoneNumber l = p ∧ isDuplicate l = false ∧
      (∀ x, x ∈ earlier → phoneNumber x ≠ p) ∧
      (∀ x, x ∈ later → phoneNumber x = p → isDuplicate x = true)) ∧
  newLeads (runMerges batches) = size (phonesOf (runMerges batches)).
Proof.
  intros Hp. pose proof (runMerges_mergeOrder batches) as Hperm.
  split; [done|].
  assert (Hsplit : ∃ earlier l later,
      mergeOrder batches = earlier ++ l :: later ∧
      phoneNumber l = p ∧ isDuplicate l = false ∧
      (∀ x, x ∈ earlier → phoneNumber x ≠ p) ∧
      (∀ x, x ∈ later → phoneNumber x = p → isDuplicate x = true)).
  { rewrite Hperm, mergeOrder_walk, processBatchFrom_phones in Hp.
    apply list_elem_of_split_l in Hp as (ps1 & ps2 & Hps & Hfresh).
    apply fmap_app_inv in Hps as (L1 & L2' & -> & Hps & HL).
    symmetry in Hps. apply fmap_cons_inv in Hps as (c & L2 & -> & -> & ->).
    rewrite mergeOrder_walk, HL, processBatchFrom_app, processBatchFrom_cons.
    eexists _, _, _. split; [reflexivity|]. split_and!.
    - done.
    - cbn. apply bool_decide_eq_false_2.
      rewrite elem_of_union, elem_of_list_to_set. set_solver.
    - intros x Hx Heq. apply Hfresh. rewrite <- Heq.
      rewrite <- (processBatchFrom_phones ∅ L1).
      apply list_elem_of_fmap. eauto.
    - intros x Hx Heq.
      eapply processBatchFrom_seen; [|exact Hx|exact Heq]. set_solver. }
  split_and!; [|done|].
  - rewrite Hperm. destruct Hsplit as (e & l & r & -> & Hl & Hnew & He & Hr).
    rewrite filter_app, filter_cons.
    rewrite (filter_phone_absent p (λ l, isDuplicate l = false) e)
      by (intros x Hx Heq; by destruct (He x Hx)).
    rewrite (filter_phone_absent p (λ l, isDuplicate l = false) r)
      by (intros x Hx Heq; rewrite (Hr x Hx Heq); discriminate).
    case_decide as Hd; [done|]. by destruct Hd.
  - assert (Hphones : phonesOf (runMerges batches) = phonesOf (concat batches)).
    { apply set_eq. intros q. rewrite !elem_of_phonesOf, Hperm, mergeOrder_walk.
      by rewrite processBatchFrom_phones. }
    assert (Hnew : length (filter isNew (runMerges batches)) =
                   length (filter isNew (mergeOrder batches))).
    { unfold isNew. by rewrite Hperm. }
    rewrite newLeads_count, Hnew, Hphones, mergeOrder_walk.
    pose proof (processBatchFrom_new_count ∅ (concat batches)) as Hc.
    by rewrite size_empty, Nat.add_0_r, union_empty_r_L in Hc.
Qed.

(** ** The batch processor *)

Lemma toLeads_stripStamp (B : Browser) (fileName : string) (u d : nat)
    (extractedData : list ExtractedData.t) :
  stripStamp <$> toLeads B fileName u d extractedData =
    candidateLead fileName <$> extractedData.
Proof.
  revert u d. induction extractedData as [|item rest IH]; intros u d; [done|].
  cbn. by rewrite IH.
Qed.

Lemma errorsOf_insert (uploads : list Upload) (ts : list Task) (i : nat)
    (up : Upload) (t t' : Task) :
  uploads !! i = Some up → ts !! i = Some t → pushed up t = [] →
  errorsOf uploads (<[i := t']> ts) ≡ₚ errorsOf uploads ts ++ pushed up t'.
Proof.
  unfold errorsOf. revert ts i.
  induction uploads as [|up0 uploads IH]; intros [|t0 ts] [|i] Hup Ht Hp;
    try done; cbn in *.
  - injection Hup as ->. injection Ht as ->. rewrite Hp. cbn.
    apply Permutation_app_comm.
  - rewrite (IH ts i Hup Ht Hp). by rewrite app_assoc.
Qed.

Lemma taskInv_insert (uploads : list Upload) (ts : list Task) (i : nat)
    (up : Upload) (t' : Task) :
  uploads !! i = Some up → taskInv up t' →
  Forall2 taskInv uploads ts → Forall2 taskInv uploads (<[i := t']> ts).
Proof.
  intros Hup Ht' HF. rewrite <- (list_insert_id uploads i up Hup).
  by apply Forall2_insert.
Qed.

Section Resume.
Context (B : Browser) (sender company : string) (uploads : list Upload).

Lemma catchFileError_inv (i : nat) (up : Upload) (t : Task) (message : string)
    (b : Batch) :
  uploads !! i = Some up → tasks b !! i = Some t → pushed up t = [] →
  fileError up = Some (errorEntry up message) →
  batchInv uploads b → batchInv uploads (catchFileError i up message b).
Proof.
  intros Hup Ht Hp Herr [HF HE]. split; cbn.
  - apply taskInv_insert with up; [done| |done].
    cbn. unfold uploadCandidates, fileCandidates.
    unfold fileError in Herr.
    destruct (readFile _ _); [|done]. by destruct (extraction up).
  - rewrite (errorsOf_insert _ _ _ _ _ _ Hup Ht Hp). cbn.
    rewrite Herr. cbn. by rewrite HE.
Qed.

Lemma resume_inv (i : nat) (b : Batch) :
  batchInv uploads b → batchInv uploads (resume B sender company uploads i b).
Proof.
  intros Hinv. unfold resume.
  destruct (uploads !! i) as [up|] eqn:Hup; [|done].
  destruct (tasks b !! i) as [t|] eqn:Ht; [|done].
  pose proof Hinv as [HF HE].
  pose proof (Forall2_lookup_lr _ _ _ _ _ _ HF Hup Ht) as Hti.
  destruct t as [| |result]; [| |done].
  - destruct (readFile (file up) (reader up)) as [decoded|message] eqn:Hread.
    + split; cbn.
      * apply taskInv_insert with up; [done| |done]. cbn. eauto.
      * rewrite (errorsOf_insert _ _ _ _ AwaitRead _ Hup Ht) by done.
        cbn. by rewrite app_nil_r.
    + apply catchFileError_inv with AwaitRead; try done.
      unfold fileError. by rewrite Hread.
  - destruct Hti as [decoded Hread].
    destruct (extraction up) as [extractedData|message] eqn:Hext.
    + assert (Hnone : fileError up = None)
        by (unfold fileError; by rewrite Hread, Hext).
      assert (Hcand : fileCandidates up = extractedData)
        by (unfold fileCandidates; by rewrite Hread, Hext).
      destruct (Nat.eqb (length extractedData) 0) eqn:Hlen; split; cbn.
      * apply taskInv_insert with up; [done| |done]. cbn.
        apply Nat.eqb_eq, nil_length_inv in Hlen.
        unfold uploadCandidates. by rewrite Hcand, Hlen.
      * rewrite (errorsOf_insert _ _ _ _ AwaitExtract _ Hup Ht) by done.
        cbn. by rewrite Hnone, app_nil_r.
      * apply taskInv_insert with up; [done| |done]. cbn.
        rewrite toLeads_stripStamp. unfold uploadCandidates. by rewrite Hcand.
      * rewrite (errorsOf_insert _ _ _ _ AwaitExtract _ Hup Ht) by done.
        cbn. by rewrite Hnone, app_nil_r.
    + apply catchFileError_inv with AwaitExtract; try done.
      unfold fileError. by rewrite Hread, Hext.
Qed.

Lemma runSchedule_inv (schedule : list nat) (b : Batch) :
  batchInv uploads b →
  batchInv uploads (runSchedule B sender company uploads schedule b).
Proof.
  unfold runSchedule. revert b.
  induction schedule as [|i schedule IH]; intros b Hinv; [done|].
  cbn. apply IH. by apply resume_inv.
Qed.

Lemma startBatch_inv (e : Effects) : batchInv uploads (startBatch uploads e).
Proof.
  unfold batchInv, startBatch, errorsOf. cbn.
  induction uploads as [|up ups IH]; cbn; [by split|].
  destruct IH as [HF HE]. split; [by constructor|done].
Qed.
End Resume.

Lemma allResults_Done (ts : list Task) (results : list (list Lead)) :
  allResults ts = Some results → ts = Done <$> results.
Proof.
  revert results. induction ts as [|t ts IH]; intros results Hall; cbn in Hall.
  - by injection Hall as <-.
  - destruct t as [| |result]; try done.
    destruct (allResults ts) as [rs|]; [|done].
    injection Hall as <-. cbn. by rewrite (IH rs).
Qed.

Lemma errorsOf_all_Done (uploads : list Upload) (results : list (list Lead)) :
  length uploads = length results →
  errorsOf uploads (Done <$> results) = omap fileError uploads.
Proof.
  unfold errorsOf. revert results.
  induction uploads as [|up ups IH]; intros [|r rs] Hlen; try done.
  cbn in *. rewrite (IH rs) by lia. by destruct (fileError up).
Qed.

(** When every callback has returned, the results are the candidates of
    the files, file by file, and [errors] holds the entries of the files
    that failed. *)
Lemma settleAll_results (B : Browser) (sender company : string)
    (uploads : list Upload)
    (schedule : list nat) (s : Session) (results : list (list Lead)) :
  allResults (tasks (settleAll B sender company uploads schedule s)) = Some results →
  Forall2 (λ up result, stripStamp <$> result = uploadCandidates up)
    uploads results ∧
  errors (settleAll B sender company uploads schedule s) ≡ₚ omap fileError uploads.
Proof.
  intros Hall. apply allResults_Done in Hall.
  destruct (runSchedule_inv B sender company uploads schedule _
              (startBatch_inv uploads (world s)))
    as [HF HE].
  fold (settleAll B sender company uploads schedule s) in HF, HE.
  rewrite Hall in HF, HE. rewrite Forall2_fmap_r in HF. split; [exact HF|].
  rewrite HE. rewrite errorsOf_all_Done; [done|].
  by apply Forall2_length in HF.
Qed.

Lemma concat_candidates (uploads : list Upload) (results : list (list Lead)) :
  Forall2 (λ up result, stripStamp <$> result = uploadCandidates up)
    uploads results →
  stripStamp <$> concat results = concat (uploadCandidates <$> uploads).
Proof.
  induction 1 as [|up r ups rs Hr _ IH]; [done|].
  cbn. by rewrite fmap_app, Hr, IH.
Qed.

(** *** Every batch can run to completion *)

Section Progress.
Context (B : Browser) (sender company : string) (uploads : list Upload).

#[local] Abbreviation step := (resume B sender company uploads).
#[local] Abbreviation run := (runSchedule B sender company uploads).

(** A segment moves its own callback forward and no other. *)
Lemma resume_shape (i : nat) (b : Batch) :
  (tasks (step i b) = tasks b ∧
   (uploads !! i = None ∨ rank (tasks b !! i) = 2%nat)) ∨
  (∃ t', tasks (step i b) = <[i := t']> (tasks b) ∧
         (i < length (tasks b))%nat ∧
         (rank (tasks b !! i) < rank (Some t'))%nat).
Proof.
  unfold resume.
  destruct (uploads !! i) as [up|] eqn:Hup; [|left; by split; [|left]].
  destruct (tasks b !! i) as [t|] eqn:Ht; [|left; by split; [|right]].
  assert (i < length (tasks b))%nat by by eapply lookup_lt_Some.
  destruct t as [| |result]; [| |left; by split; [|right]]; right.
  - destruct (readFile _ _); eexists; cbn; (split; [reflexivity|split; [done|lia]]).
  - destruct (extraction up) as [data|]; [destruct (Nat.eqb _ _)|];
      eexists; cbn; (split; [reflexivity|split; [done|lia]]).
Qed.

Lemma resume_length (i : nat) (b : Batch) :
  length (tasks (step i b)) = length (tasks b).
Proof.
  destruct (resume_shape i b) as [[-> _]|(t' & -> & _)]; [done|].
  apply length_insert.
Qed.

Lemma resume_rank_mono (i j : nat) (b : Batch) :
  (rank (tasks b !! j) ≤ rank (tasks (step i b) !! j))%nat.
Proof.
  destruct (resume_shape i b) as [[-> _]|(t' & -> & Hi & Hlt)]; [done|].
  destruct (decide (i = j)) as [->|Hne].
  - rewrite list_lookup_insert_eq by done. lia.
  - by rewrite list_lookup_insert_ne.
Qed.

Lemma resume_rank_step (i : nat) (b : Batch) :
  length (tasks b) = length uploads →
  (Nat.min 2 (S (rank (tasks b !! i))) ≤ rank (tasks (step i b) !! i))%nat.
Proof.
  intros Hlen.
  destruct (resume_shape i b) as [[-> [Hnone|Hdone]]|(t' & -> & Hi & Hlt)].
  - apply lookup_ge_None in Hnone. rewrite <- Hlen in Hnone.
    apply lookup_ge_None in Hnone. rewrite Hnone. cbn. lia.
  - rewrite Hdone. lia.
  - rewrite list_lookup_insert_eq by done. lia.
Qed.

Lemma run_length (schedule : list nat) (b : Batch) :
  length (tasks (run schedule b)) = length (tasks b).
Proof.
  unfold runSchedule. revert b.
  induction schedule as [|i schedule IH]; intros b; [done|].
  cbn. by rewrite IH, resume_length.
Qed.

Lemma run_rank_mono (schedule : list nat) (j : nat) (b : Batch) :
  (rank (tasks b !! j) ≤ rank (tasks (run schedule b) !! j))%nat.
Proof.
  unfold runSchedule. revert b.
  induction schedule as [|i schedule IH]; intros b; [done|].
  cbn. etrans; [apply (resume_rank_mono i j)|apply IH].
Qed.

Lemma run_rank_step (schedule : list nat) (j : nat) (b : Batch) :
  length (tasks b) = length uploads → j ∈ schedule →
  (Nat.min 2 (S (rank (tasks b !! j))) ≤ rank (tasks (run schedule b) !! j))%nat.
Proof.
  revert b. induction schedule as [|i schedule IH]; intros b Hlen Hj.
  - by apply elem_of_nil in Hj.
  - change (run (i :: schedule) b) with (run schedule (step i b)).
    apply elem_of_cons in Hj as [->|Hj].
    + etrans; [by apply resume_rank_step|apply run_rank_mono].
    + etrans; [|apply IH; [by rewrite resume_length|done]].
      pose proof (resume_rank_mono i j b). lia.
Qed.

Lemma run_app (l1 l2 : list nat) (b : Batch) :
  run (l1 ++ l2) b = run l2 (run l1 b).
Proof. unfold runSchedule. apply foldl_app. Qed.
End Progress.

Lemma allResults_ranks (ts : list Task) :
  (∀ j, (j < length ts)%nat → rank (ts !! j) = 2%nat) →
  is_Some (allResults ts).
Proof.
  induction ts as [|t ts IH]; intros Hr; [by eexists|].
  pose proof (Hr 0%nat ltac:(cbn; lia)) as H0.
  destruct t as [| |result]; try done.
  destruct IH as [rs Hrs].
  - intros j Hj. apply (Hr (S j)). cbn. lia.
  - cbn. rewrite Hrs. by eexists.
Qed.

(** Resuming every callback twice settles the whole batch, so that
    [processFiles] returns. *)
Lemma roundRobin_completes (B : Browser) (sender company : string)
    (uploads : list Upload) (s : Session) :
  completes B sender company uploads (roundRobin uploads) s = true.
Proof.
  unfold completes.
  destruct (allResults_ranks (tasks (settleAll B sender company uploads (roundRobin uploads) s)))
    as [rs ->]; [|done].
  unfold settleAll, roundRobin. rewrite run_app.
  set (b0 := startBatch uploads (world s)).
  assert (Hlen0 : length (tasks b0) = length uploads)
    by (cbn; apply length_replicate).
  rewrite !run_length, Hlen0. intros j Hj.
  assert (Hin : j ∈ seq 0 (length uploads)) by (apply elem_of_seq; lia).
  pose proof (run_rank_step B sender company uploads _ j b0 Hlen0 Hin) as H1.
  pose proof (run_rank_step B sender company uploads _ j
                (runSchedule B sender company uploads (seq 0 (length uploads)) b0)
                ltac:(by rewrite run_length) Hin) as H2.
  assert (rank (tasks (runSchedule B sender company uploads (seq 0 (length uploads))
            (runSchedule B sender company uploads (seq 0 (length uploads)) b0)) !! j) ≤ 2)%nat.
  { generalize (tasks (runSchedule B sender company uploads (seq 0 (length uploads))
            (runSchedule B sender company uploads (seq 0 (length uploads)) b0)) !! j).
    intros [[| |?]|]; cbn; lia. }
  lia.
Qed.

(** The four ways in which a batch ends. *)
Lemma finishBatch_cases (results : list (list Lead)) (errors : list string)
    (a : AppState) :
  finishBatch results errors a =
    match concat results, errors with
    | [], [] => catchBatchError NoLeadsFound a
    | [], _ => catchBatchError (BatchExtractionFailed errors) a
    | newLeadsAccumulator, [] =>
        setStatus SUCCESS
          (setLeads (λ prevLeads, merge prevLeads newLeadsAccumulator) a)
    | newLeadsAccumulator, _ =>
        setErrorMsg (Some (processedWithErrors errors))
          (setStatus SUCCESS
             (setLeads (λ prevLeads, merge prevLeads newLeadsAccumulator) a))
    end.
Proof.
  unfold finishBatch. cbv zeta.
  destruct (concat results) as [|l ls]; destruct errors as [|e es]; done.
Qed.

Lemma processFiles_settled (B : Browser) (sender company : string)
    (uploads : list Upload)
    (schedule : list nat) (s : Session) :
  (0 < length uploads ≤ 10)%nat →
  completes B sender company uploads schedule s = true →
  ∃ results,
    allResults (tasks (settleAll B sender company uploads schedule s)) = Some results ∧
    stripStamp <$> concat results = concat (uploadCandidates <$> uploads) ∧
    errors (settleAll B sender company uploads schedule s) ≡ₚ omap fileError uploads ∧
    processFiles B sender company uploads schedule s =
      let b := settleAll B sender company uploads schedule s in
      let a := setErrorMsg None (setStatus PROCESSING (app s)) in
      Returned
        {| app :=
             match concat results, errors b with
             | [], [] => catchBatchError NoLeadsFound a
             | [], _ => catchBatchError (BatchExtractionFailed (errors b)) a
             | newLeadsAccumulator, [] =>
                 setStatus SUCCESS
                   (setLeads (λ prevLeads, merge prevLeads newLeadsAccumulator) a)
             | newLeadsAccumulator, _ =>
                 setErrorMsg (Some (processedWithErrors (errors b)))
                   (setStatus SUCCESS
                      (setLeads (λ prevLeads, merge prevLeads newLeadsAccumulator) a))
             end;
           world := fx b |}.
Proof.
  intros [Hpos Hmax] Hdone. unfold completes in Hdone.
  destruct (allResults _) as [results|] eqn:Hall; [|done].
  exists results. destruct (settleAll_results _ _ _ _ _ _ _ Hall) as [HF HE].
  split_and!; [done|by apply concat_candidates|done|].
  unfold processFiles.
  destruct (Nat.eqb_neq (length uploads) 0) as [_ ->]; [|lia].
  destruct (Nat.ltb_ge 10 (length uploads)) as [_ ->]; [|lia].
  cbv zeta. rewrite Hall. by rewrite finishBatch_cases.
Qed.



(** The call sites: a handler that is given no file list, or an empty
    one, returns without calling [processFiles]; given files, it calls
    [processFiles] on them, [handleInputChange] with the settings on
    display and [handleDrop] with those of the first render. *)
Lemma handlers_pass_files (B : Browser) (files : option (list Upload))
    (schedule : list nat) (s : Session) :
  match files with
  | Some (up :: ups) =>
      handleInputChange B files schedule s =
        processFiles B (senderName (app s)) (companyName (app s))
          (up :: ups) schedule s ∧
      handleDrop B files schedule s =
        processFiles B "" "" (up :: ups) schedule s
  | _ =>
      handleInputChange B files schedule s = Returned s ∧
      handleDrop B files schedule s = Returned s
  end.
Proof. by destruct files as [[|up ups]|]. Qed.





Lemma prefix_app_same (a b c : string) :
  String.prefix (a +:+ b) (a +:+ c) = String.prefix b c.
Proof.
  induction a as [|ch a IH]; [done|].
  change (String ch a +:+ b) with (String ch (a +:+ b)).
  change (String ch a +:+ c) with (String ch (a +:+ c)).
  cbn [String.prefix]. destruct (Ascii.ascii_dec ch ch); [apply IH|done].
Qed.

Lemma prefix_app_l (b c : string) : String.prefix b (b +:+ c) = true.
Proof.
  induction b as [|ch b IH]; [by destruct c|].
  change (String ch b +:+ c) with (String ch (b +:+ c)).
  cbn [String.prefix]. destruct (Ascii.ascii_dec ch ch); [apply IH|done].
Qed.




(** C5.  A batch of more than ten files is rejected with [BatchTooLarge]
    whatever the environment would have done: [processFiles] returns at
    once, [readFile] and the gateway are not called (the effects are those
    before the call), and the lead history and the status are unchanged. *)
Theorem oversized_batch_rejected (B : Browser) (sender company : string)
    (uploads : list Upload)
    (schedule : list nat) (s : Session) :
  (10 < length uploads)%nat →
  ∃ s',
    processFiles B sender company uploads schedule s = Returned s' ∧
    errorMsg (app s') = Some BatchTooLarge ∧
    leads (app s') = leads (app s) ∧
    status (app s') = status (app s) ∧
    world s' = world s ∧
    readFileCalls (world s') = readFileCalls (world s) ∧
    gatewayCalls (world s') = gatewayCalls (world s).
Proof.
  intros Hlen. unfold processFiles.
  destruct (Nat.eqb_neq (length uploads) 0) as [_ ->]; [|lia].
  destruct (Nat.ltb_lt 10 (length uploads)) as [_ ->]; [|lia].
  eexists. split; [reflexivity|]. by cbn.
Qed.

(** C8.  Whatever the order in which the callbacks of a batch run, once
    they have all returned the results are those of the files in
    file-array order, each file with its candidates in the order of the
    extraction response; their concatenation is the list that is merged
    into the history. *)
Theorem candidates_in_file_order (B : Browser) (sender company : string)
    (uploads : list Upload)
    (schedule : list nat) (s : Session) :
  completes B sender company uploads schedule s = true →
  ∃ results,
    allResults (tasks (settleAll B sender company uploads schedule s)) = Some results ∧
    Forall2 (λ up result,
               stripStamp <$> result =
                 candidateLead (File.name (file up)) <$> fileCandidates up)
      uploads results ∧
    stripStamp <$> concat results = concat (uploadCandidates <$> uploads) ∧
    ((0 < length uploads ≤ 10)%nat → concat results ≠ [] →
     ∃ s', processFiles B sender company uploads schedule s = Returned s' ∧
           leads (app s') = merge (leads (app s)) (concat results)).
Proof.
  intros Hdone. pose proof Hdone as Hdone'. unfold completes in Hdone'.
  destruct (allResults _) as [results|] eqn:Hall; [|done].
  exists results. destruct (settleAll_results _ _ _ _ _ _ _ Hall) as [HF _].
  split_and!; [done|exact HF|by apply concat_candidates|].
  intros Hsize Hne.
  destruct (processFiles_settled B sender company uploads schedule s Hsize Hdone)
    as (results' & Hall' & _ & _ & ->).
  rewrite Hall in Hall'. injection Hall' as <-. cbv zeta.
  destruct (concat results) as [|l ls]; [done|].
  destruct (errors _); eexists; (split; [reflexivity|done]).
Qed.

(** *** The ids play no part in a batch

    Two runs that differ in what [crypto.randomUUID] returns, and at most
    in the ids of the leads of the history, go through the same states and
    end with histories that agree lead for lead with the ids aside. *)

Section IdsAside.
Context (B1 B2 : Browser) (sender company : string) (uploads : list Upload).
Hypothesis same_clock : ∀ k, nowISO B1 k = nowISO B2 k.

Lemma toLeads_sameUpToId (fileName : string) (u d : nat)
    (extractedData : list ExtractedData.t) :
  Forall2 sameUpToId (toLeads B1 fileName u d extractedData)
                     (toLeads B2 fileName u d extractedData).
Proof.
  revert u d. induction extractedData as [|item rest IH]; intros u d; cbn.
  - constructor.
  - constructor; [|apply IH]. unfold sameUpToId, withId. cbn.
    by rewrite same_clock.
Qed.

Lemma resume_rel (i : nat) (b1 b2 : Batch) :
  batchRel b1 b2 →
  batchRel (resume B1 sender company uploads i b1)
           (resume B2 sender company uploads i b2).
Proof.
  intros (HF & HE & HX). unfold resume.
  destruct (uploads !! i) as [up|]; [|by split].
  destruct (tasks b1 !! i) as [t1|] eqn:Ht1.
  - destruct (Forall2_lookup_l _ _ _ _ _ HF Ht1) as (t2 & Ht2 & Hrel).
    rewrite Ht2.
    destruct t1 as [| |r1], t2 as [| |r2]; try done.
    + destruct (readFile (file up) (reader up));
        (split; cbn; [apply Forall2_insert; [done|by cbn]|by rewrite HE, HX]).
    + destruct (extraction up) as [data|]; [destruct (Nat.eqb _ _)|];
        (split; cbn; [apply Forall2_insert; [done|cbn]|by rewrite HE, HX]).
      * constructor.
      * rewrite HX. apply toLeads_sameUpToId.
      * constructor.
  - destruct (tasks b2 !! i) as [t2|] eqn:Ht2; [|by split].
    destruct (Forall2_lookup_r _ _ _ _ _ HF Ht2) as (t1 & Ht1' & _).
    congruence.
Qed.

Lemma runSchedule_rel (schedule : list nat) (b1 b2 : Batch) :
  batchRel b1 b2 →
  batchRel (runSchedule B1 sender company uploads schedule b1)
           (runSchedule B2 sender company uploads schedule b2).
Proof.
  unfold runSchedule. revert b1 b2.
  induction schedule as [|i schedule IH]; intros b1 b2 Hrel; [done|].
  cbn. apply IH. by apply resume_rel.
Qed.
End IdsAside.

Lemma allResults_rel (ts1 ts2 : list Task) :
  Forall2 taskRel ts1 ts2 →
  option_Forall2 (Forall2 (Forall2 sameUpToId)) (allResults ts1) (allResults ts2).
Proof.
  induction 1 as [|t1 t2 ts1 ts2 Ht _ IH]; cbn; [by repeat constructor|].
  destruct t1 as [| |r1], t2 as [| |r2]; try done; try by constructor.
  destruct IH as [rs1 rs2 Hrs|]; cbn; constructor. by constructor.
Qed.

Lemma Forall2_concat_lists {A C} (P : A → C → Prop)
    (ls1 : list (list A)) (ls2 : list (list C)) :
  Forall2 (Forall2 P) ls1 ls2 → Forall2 P (concat ls1) (concat ls2).
Proof. induction 1; cbn; [constructor|by apply Forall2_app]. Qed.

Lemma processFiles_ids_aside (B1 B2 : Browser) (sender company : string)
    (uploads : list Upload)
    (schedule : list nat) (s1 s2 : Session) :
  (∀ k, nowISO B1 k = nowISO B2 k) →
  sessionRel s1 s2 →
  outcomeRel (processFiles B1 sender company uploads schedule s1)
             (processFiles B2 sender company uploads schedule s2).
Proof.
  intros Hclock (Hleads & Hst & Hmsg & Hsn & Hcn & Hw). unfold processFiles.
  destruct (Nat.eqb (length uploads) 0); [by split_and!|].
  destruct (Nat.ltb 10 (length uploads)); [by split_and!|].
  cbv zeta.
  assert (Hrel : batchRel (settleAll B1 sender company uploads schedule s1)
                          (settleAll B2 sender company uploads schedule s2)).
  { unfold settleAll. rewrite Hw. apply runSchedule_rel; [done|].
    split_and!; [|done..]. cbn.
    induction (length uploads); by constructor. }
  destruct Hrel as (HF & HE & HX). rewrite <- HE, <- HX.
  destruct (allResults_rel _ _ HF) as [rs1 rs2 Hrs|]; [|by split_and!].
  unfold finishBatch. cbv zeta.
  apply Forall2_concat_lists in Hrs. rewrite <- (Forall2_length _ _ _ Hrs).
  assert (Hmerge : Forall2 sameUpToId
            (merge (leads (app s1)) (concat rs1))
            (merge (leads (app s2)) (concat rs2))).
  { unfold merge, processedBatch, phonesOf.
    rewrite <- (sameUpToId_phones _ _ Hleads).
    apply Forall2_app; [|done]. by apply processBatchFrom_sameUpToId. }
  repeat match goal with
         | |- context [if ?c then _ else _] => destruct c
         end; by split_and!.
Qed.

(** ** The file decoder *)





(** ** The extraction gateway *)

(** C6, as amended.  For every file the gateway is all-or-nothing at the
    level of the response: a failed call and a response text that
    [JSON.parse] refuses are each rejected with the one
    [ExtractionFailure] message, and no rejection carries another; a
    response without text resolves with the empty array; and a response
    text that parses resolves with the parsed value as a whole, whatever
    its records hold. *)
Theorem gateway_all_or_nothing (JSON_parse : string → option JSON)
    (generateContent : Request → GenerateContent)
    (fileContent mimeType senderName companyName : string) :
  let request := {| contents := buildContents fileContent mimeType;
                    instructionSender := senderName;
                    instructionCompany := companyName |} in
  let outcome := extractLeadsFromFile JSON_parse generateContent
                   fileContent mimeType senderName companyName in
  (∀ message, outcome = Rejected message → message = ExtractionFailure) ∧
  (generateContent request = CallFails → outcome = Rejected ExtractionFailure) ∧
  (∀ text, generateContent request = Response (Some text) → text ≠ "" →
     JSON_parse (cleanJsonOutput text) = None →
     outcome = Rejected ExtractionFailure) ∧
  (∀ text parsedData,
     generateContent request = Response (Some text) → text ≠ "" →
     JSON_parse (cleanJsonOutput text) = Some parsedData →
     outcome = Resolved parsedData) ∧
  (generateContent request = Response None ∨
   generateContent request = Response (Some "") →
   outcome = Resolved (JArray [])).
Proof.
  intros request outcome. subst outcome. unfold extractLeadsFromFile.
  fold request.
  destruct (generateContent request) as [|[text|]] eqn:Hgen;
    [| destruct (String.eqb_spec text "") as [->|Hne];
       [| destruct (JSON_parse (cleanJsonOutput text)) as [v|] eqn:Hparse] |];
    split_and!; intros;
    repeat match goal with Hor : _ ∨ _ |- _ => destruct Hor end;
    simplify_eq; try done; congruence.
Qed.

(** ** Worked examples *)

Example merge_example :
  merge [lead1] [lead2; lead3; lead4] =
    [withIsDuplicate lead2 true; lead3; withIsDuplicate lead4 true; lead1].
Proof. vm_compute. reflexivity. Qed.

(** Testable property 8 of the specification. *)
Example merge_twice_example :
  isDuplicate <$> merge (merge [] [lead1]) [lead2] = [true; false] ∧
  isDuplicate <$> merge (merge [] [lead1]) [lead3] = [false; false].
Proof. by vm_compute. Qed.

(** Testable property 5 of the specification, with the callbacks run in
    the reverse of the file order. *)
Example processFiles_partial_example :
  ∃ s', processFiles browser0 "Paul" "TLG" [fileA; fileB; fileC] [2; 1; 0; 2; 1; 0]%nat
          session0 = Returned s' ∧
        status (app s') = SUCCESS ∧
        fullName <$> leads (app s') = ["Ann Lee"; "Bob Ray"] ∧
        id <$> leads (app s') = ["uuid-0"; "uuid-1"] ∧
        errorMsg (app s') =
          Some "Processed with some errors: b.png: Failed to extract data. The file might be unclear or the AI could not find valid leads.".
Proof. eexists. by vm_compute. Qed.

(** Testable properties 6 and 7 of the specification. *)
Example processFiles_failed_examples :
  (∃ s', processFiles browser0 "Paul" "TLG" [fileB; fileB] [0; 1; 0; 1]%nat session0
           = Returned s' ∧
         status (app s') = ERROR ∧ leads (app s') = [] ∧
         errorMsg (app s') =
           Some (BatchExtractionFailed ["b.png: " +:+ ExtractionFailure;
                                        "b.png: " +:+ ExtractionFailure])) ∧
  (∃ s', processFiles browser0 "Paul" "TLG" [fileC; fileC] [1; 0; 1; 0]%nat session0
           = Returned s' ∧
         status (app s') = ERROR ∧ leads (app s') = [] ∧
         errorMsg (app s') = Some NoLeadsFound).
Proof. split; eexists; by vm_compute. Qed.

Example processFiles_pending_example :
  ∃ s', processFiles browser0 "Paul" "TLG" [fileA; fileB] [0; 1; 0]%nat session0 = Pending s' ∧
        status (app s') = PROCESSING.
Proof. eexists. by vm_compute. Qed.

(** Once the settings are edited, two calls of [processFiles] are
    suspended at once after the first nine events of [overlappingEvents],
    the one made from the drop zone with the settings of the first render;
    at the end of the run the history holds the blocks of the three
    batches, the block of the batch that finished last in front. *)
Example overlapping_example :
  (let p := runEvents browser0
              (EditSettings "Paul" "TLG" :: take 9 overlappingEvents)
              initialPage in
   (invSender <$> invocations p, invUploads <$> invocations p) =
     (["Paul"; ""], [[fileA; fileB]; [fileA]]) ∧
   status (app (session p)) = PROCESSING) ∧
  (let p := runEvents browser0 (EditSettings "Paul" "TLG" :: overlappingEvents)
              initialPage in
   invocations p = [] ∧
   sourceFile <$> leads (app (session p)) =
     ["a.csv"; "a.csv"; "a.csv"; "a.csv"; "a.csv"; "a.csv"] ∧
   isDuplicate <$> leads (app (session p)) =
     [true; true; true; true; false; false] ∧
   callSenderName <$> gatewayCalls (world (session p)) =
     ["Paul"; "Paul"; "Paul"; ""]).
Proof. by vm_compute. Qed.

Example readFile_examples :
  readFile (file fileB) (reader fileB) =
    Resolved {| content := Some "iVBORw0KGgo="; mimeType := "image/png" |} ∧
  readFile (file fileC) (reader fileC) =
    Resolved {| content := Some "no drivers here"; mimeType := "text/plain" |} ∧
  readFile (file fileD) (reader fileD) =
    Rejected "Unsupported file type: d.pdf" ∧
  readFile (File.Build "notes.txt" "application/pdf") (ReaderLoad "x") =
    Resolved {| content := Some "x"; mimeType := "text/plain" |} ∧
  readFile (File.Build "scan.txt" "image/png") (ReaderLoad "x") =
    Resolved {| content := None; mimeType := "image/png" |}.
Proof. by vm_compute. Qed.

Example cleanJsonOutput_example :
  cleanJsonOutput ("```json" +:+ newline +:+ "[]" +:+ newline +:+ "```") = "[]".
Proof. by vm_compute. Qed.

(** ** Instances of the theorems *)

(** C2 at the batch [[lead2; lead3; lead4]] merged into [[lead1]]: the
    third candidate repeats the phone number of the second. *)
Lemma merge_first_occurrence_wins_witness :
  ∃ l, merge [lead1] [lead2; lead3; lead4] !! 2%nat = Some l ∧
       isDuplicate l = true.
Proof.
  destruct (merge_first_occurrence_wins [lead1] [lead2; lead3; lead4] 2 lead4)
    as (l & Hl & _ & Hdup & _); [reflexivity|].
  exists l. split; [exact Hl|]. apply Hdup. right.
  exists 1%nat, lead3. split; [lia|]. split; reflexivity.
Defined.



(** C5 at a batch of eleven files. *)
Lemma oversized_batch_rejected_witness :
  ∃ s',
    processFiles browser0 "Paul" "TLG" (replicate 11 fileA) (roundRobin (replicate 11 fileA))
      session0 = Returned s' ∧
    errorMsg (app s') = Some BatchTooLarge ∧
    leads (app s') = [] ∧
    readFileCalls (world s') = [] ∧
    gatewayCalls (world s') = [].
Proof.
  destruct (oversized_batch_rejected browser0 "Paul" "TLG" (replicate 11 fileA)
              (roundRobin (replicate 11 fileA)) session0)
    as (s' & Hp & Hmsg & Hleads & _ & _ & Hreads & Hcalls); [cbn; lia|].
  exists s'. split; [exact Hp|]. split; [exact Hmsg|].
  split; [exact Hleads|]. split; [exact Hreads|exact Hcalls].
Defined.

(** C6, as amended, at a response in a Markdown fence. *)
Lemma gateway_all_or_nothing_witness :
  extractLeadsFromFile JsonText.parse
    (λ _, Response (Some (fenceJson +:+ " [] " +:+ fence)))
    "Ann Lee,5550100001" "text/plain" "Paul" "TLG"
  = Resolved (JArray []).
Proof.
  destruct (gateway_all_or_nothing JsonText.parse
              (λ _, Response (Some (fenceJson +:+ " [] " +:+ fence)))
              "Ann Lee,5550100001" "text/plain" "Paul" "TLG")
    as (_ & _ & _ & Hparsed & _).
  apply (Hparsed (fenceJson +:+ " [] " +:+ fence)).
  - reflexivity.
  - discriminate.
  - vm_compute. reflexivity.
Defined.

(** The response [partialResponse] has a record without [phoneNumber]
    and [outreachMessage]; the gateway resolves with it. *)
Lemma gateway_returns_partial_record :
  extractLeadsFromFile JsonText.parse (λ _, Response (Some partialResponse))
    "Ann Lee,5550100001" "text/plain" "Paul" "TLG"
  = Resolved (JArray [JObject [("fullName", JString "Ann Lee")]]) ∧
  asExtractedDataArray (JArray [JObject [("fullName", JString "Ann Lee")]])
  = None.
Proof. by vm_compute. Qed.


(** C8 at two orders of completion of the same batch. *)
Lemma candidates_in_file_order_witness :
  ∃ results results',
    allResults (tasks (settleAll browser0 "Paul" "TLG" [fileA; fileB; fileC]
                         [0; 1; 2; 0; 1; 2]%nat session0)) = Some results ∧
    allResults (tasks (settleAll browser0 "Paul" "TLG" [fileA; fileB; fileC]
                         [2; 1; 0; 2; 1; 0]%nat session0)) = Some results' ∧
    stripStamp <$> concat results = stripStamp <$> concat results'.
Proof.
  destruct (candidates_in_file_order browser0 "Paul" "TLG" [fileA; fileB; fileC]
              [0; 1; 2; 0; 1; 2]%nat session0)
    as (results & Hall & _ & Hcat & _); [reflexivity|].
  destruct (candidates_in_file_order browser0 "Paul" "TLG" [fileA; fileB; fileC]
              [2; 1; 0; 2; 1; 0]%nat session0)
    as (results' & Hall' & _ & Hcat' & _); [reflexivity|].
  exists results, results'. split; [exact Hall|]. split; [exact Hall'|].
  rewrite Hcat, Hcat'. reflexivity.
Defined.

(** C9 at two runs that differ in the ids only. *)
Lemma merge_deterministic_witness :
  Forall2 sameUpToId
    (merge [lead1] [lead2; lead3])
    (merge [withId lead1 "x"] [withId lead2 "y"; withId lead3 "z"]).
Proof.
  apply (merge_deterministic [lead1] [withId lead1 "x"] [lead2; lead3]
           [withId lead2 "y"; withId lead3 "z"]);
    repeat constructor.
Defined.

(** C10 at two batches that share a phone number. *)
Lemma history_one_new_lead_per_phone_witness :
  length (filter (λ l, phoneNumber l = "(555) 010-0001" ∧ isDuplicate l = false)
            (runMerges [[lead1]; [lead2; lead3; lead4]])) = 1%nat ∧
  newLeads (runMerges [[lead1]; [lead2; lead3; lead4]]) =
    size (phonesOf (runMerges [[lead1]; [lead2; lead3; lead4]])).
Proof.
  destruct (history_one_new_lead_per_phone [[lead1]; [lead2; lead3; lead4]]
              "(555) 010-0001") as (_ & Hone & _ & Hcount).
  - apply (bool_decide_unpack _). vm_compute. exact I.
  - split; [exact Hone|exact Hcount].
Defined.

(** * Further properties *)

(** ** The lead merger, continued *)

Lemma processBatchFrom_all_seen (S : gset string) (B : list Lead) (l : Lead) :
  phonesOf B ⊆ S → l ∈ processBatchFrom S B → isDuplicate l = true.
Proof.
  intros Hsub Hl.
  apply (processBatchFrom_seen S B (phoneNumber l) l); [|done..].
  apply Hsub, elem_of_phonesOf. rewrite <- (processBatchFrom_phones S B).
  apply list_elem_of_fmap. eauto.
Qed.

Lemma filter_isNew_all_duplicates (ls : list Lead) :
  (∀ l, l ∈ ls → isDuplicate l = true) → filter isNew ls = [].
Proof.
  intros Hdup. induction ls as [|l ls IH]; [done|].
  rewrite filter_cons. case_decide as Hnew.
  - unfold isNew in Hnew. rewrite (Hdup l) in Hnew by left. done.
  - apply IH. intros x Hx. apply Hdup. by right.
Qed.

Lemma newLeads_app (ls1 ls2 : list Lead) :
  newLeads (ls1 ++ ls2) = (length (filter isNew ls1) + newLeads ls2)%nat.
Proof. by rewrite !newLeads_count, filter_app, length_app. Qed.

(** X1.  Uploading a batch in two parts gives the leads, with the flags,
    that uploading it at once gives: the two blocks of the history are the
    same, the later part in front instead of behind. *)
Theorem merge_in_two_parts (H B1 B2 : list Lead) :
  merge H (B1 ++ B2) =
    processedBatch H B1 ++ processedBatch (merge H B1) B2 ++ H ∧
  merge (merge H B1) B2 =
    processedBatch (merge H B1) B2 ++ processedBatch H B1 ++ H ∧
  merge (merge H B1) B2 ≡ₚ merge H (B1 ++ B2).
Proof.
  assert (Hone : merge H (B1 ++ B2) =
            processedBatch H B1 ++ processedBatch (merge H B1) B2 ++ H).
  { unfold merge at 1. unfold processedBatch.
    rewrite processBatchFrom_app, phonesOf_merge.
    unfold phonesOf at 3. by rewrite <- app_assoc. }
  assert (Htwo : merge (merge H B1) B2 =
            processedBatch (merge H B1) B2 ++ processedBatch H B1 ++ H)
    by reflexivity.
  split_and!; [done|done|]. rewrite Hone, Htwo, !app_assoc.
  apply Permutation_app_tail, Permutation_app_comm.
Qed.

(** X2.  A batch whose phone numbers all occur in the history adds
    duplicates only: every lead it adds is flagged, and the "new leads"
    figure of the header stays as it was. *)
Theorem merge_known_numbers (H B : list Lead) :
  phonesOf B ⊆ phonesOf H →
  (∀ l, l ∈ processedBatch H B → isDuplicate l = true) ∧
  newLeads (merge H B) = newLeads H ∧
  duplicateCount (merge H B) = (length B + duplicateCount H)%nat.
Proof.
  intros Hsub.
  assert (Hdup : ∀ l, l ∈ processedBatch H B → isDuplicate l = true)
    by (intros l; by apply processBatchFrom_all_seen).
  assert (Hnew : newLeads (merge H B) = newLeads H).
  { unfold merge. by rewrite newLeads_app, filter_isNew_all_duplicates. }
  split_and!; [done|done|].
  pose proof (duplicates_and_new (merge H B)) as H1.
  pose proof (duplicates_and_new H) as H2.
  rewrite <- !newLeads_count, Hnew in *.
  unfold merge, processedBatch in H1 |- *.
  rewrite length_app, processBatchFrom_length in H1. lia.
Qed.

(** X3.  The figures of the header after a merge, for any history: the
    total grows by the size of the batch, "new" by the number of distinct
    phone numbers of the batch that the history does not hold, and
    "duplicates" by the rest of the batch. *)
Theorem header_after_merge (H B : list Lead) :
  totalLeads (merge H B) = (length B + totalLeads H)%nat ∧
  newLeads (merge H B) = (size (phonesOf B ∖ phonesOf H) + newLeads H)%nat ∧
  (duplicateCount (merge H B) + size (phonesOf B ∖ phonesOf H))%nat =
    (length B + duplicateCount H)%nat.
Proof.
  assert (Htotal : totalLeads (merge H B) = (length B + totalLeads H)%nat).
  { unfold totalLeads, merge, processedBatch.
    by rewrite length_app, processBatchFrom_length. }
  assert (Hnew : newLeads (merge H B) =
            (size (phonesOf B ∖ phonesOf H) + newLeads H)%nat).
  { unfold merge, processedBatch. rewrite newLeads_app. f_equal.
    pose proof (processBatchFrom_new_count (phonesOf H) B) as Hc.
    rewrite (union_comm_L (phonesOf B)), size_union_alt in Hc. lia. }
  split_and!; [done|done|].
  pose proof (duplicates_and_new (merge H B)) as H1.
  pose proof (duplicates_and_new H) as H2.
  rewrite <- !newLeads_count in *. unfold totalLeads in Htotal. lia.
Qed.

(** ** The batch processor, continued *)

(** X4.  Whatever the files, the environment and the order of the
    callbacks, [processFiles] only ever puts leads in front of the
    history: the old history is a suffix of the new one, and it is the
    whole of it unless the call has returned with [SUCCESS]. *)
Theorem processFiles_extends_history (B : Browser) (sender company : string)
    (uploads : list Upload)
    (schedule : list nat) (s : Session) :
  let s' := outcomeSession (processFiles B sender company uploads schedule s) in
  leads (app s) `suffix_of` leads (app s') ∧
  (leads (app s') ≠ leads (app s) →
   processFiles B sender company uploads schedule s = Returned s' ∧
   status (app s') = SUCCESS).
Proof.
  unfold processFiles.
  destruct (Nat.eqb (length uploads) 0); [by split|].
  destruct (Nat.ltb 10 (length uploads)); [by split|].
  cbv zeta. destruct (allResults _) as [results|]; [|by split].
  unfold finishBatch. cbv zeta.
  destruct (_ && _); [by split|].
  destruct (Nat.eqb (length (concat results)) 0); [by split|].
  destruct (Nat.ltb 0 _); cbn; (split; [by apply suffix_app_r|done]).
Qed.

(** X5.  When [processFiles] has returned for a batch of one to ten
    files, the status is [SUCCESS] with a history that has grown, or
    [ERROR] with the history as it was and a message on display; it is
    never left at [PROCESSING]. *)
Theorem processFiles_status (B : Browser) (sender company : string)
    (uploads : list Upload)
    (schedule : list nat) (s s' : Session) :
  (0 < length uploads ≤ 10)%nat →
  processFiles B sender company uploads schedule s = Returned s' →
  (status (app s') = SUCCESS ∧
   (length (leads (app s)) < length (leads (app s')))%nat) ∨
  (status (app s') = ERROR ∧ leads (app s') = leads (app s) ∧
   is_Some (errorMsg (app s'))).
Proof.
  intros [Hpos Hmax] Hret. unfold processFiles in Hret.
  destruct (Nat.eqb_neq (length uploads) 0) as [_ Hz]; rewrite Hz in Hret by lia.
  destruct (Nat.ltb_ge 10 (length uploads)) as [_ Hl]; rewrite Hl in Hret by lia.
  cbv zeta in Hret. destruct (allResults _) as [results|]; [|done].
  unfold finishBatch in Hret. cbv zeta in Hret.
  destruct (_ && _); [injection Hret as <-; right; by split_and!|].
  destruct (Nat.eqb (length (concat results)) 0) eqn:Hlen;
    [injection Hret as <-; right; by split_and!|].
  apply Nat.eqb_neq in Hlen. left.
  destruct (Nat.ltb 0 _); injection Hret as <-; cbn;
    (split; [done|]); unfold merge, processedBatch;
    rewrite length_app, processBatchFrom_length; lia.
Qed.

(** *** The ids of a session *)

Lemma toLeads_ids (B : Browser) (fileName : string) (u d : nat)
    (extractedData : list ExtractedData.t) :
  id <$> toLeads B fileName u d extractedData =
    randomUUID B <$> seq u (length extractedData).
Proof.
  revert u d. induction extractedData as [|item rest IH]; intros u d; [done|].
  cbn. by rewrite IH.
Qed.

Lemma toLeads_length (B : Browser) (fileName : string) (u d : nat)
    (extractedData : list ExtractedData.t) :
  length (toLeads B fileName u d extractedData) = length extractedData.
Proof.
  revert u d. induction extractedData as [|item rest IH]; intros u d; [done|].
  cbn. by rewrite IH.
Qed.

Lemma processBatchFrom_ids (S : gset string) (batch : list Lead) :
  id <$> processBatchFrom S batch = id <$> batch.
Proof.
  revert S. induction batch as [|l batch IH]; intros S; [done|].
  rewrite processBatchFrom_cons. cbn. by rewrite IH.
Qed.

Lemma batchLeads_insert (ts : list Task) (i : nat) (t t' : Task) :
  ts !! i = Some t → returned t = [] →
  batchLeads (<[i := t']> ts) ≡ₚ batchLeads ts ++ returned t'.
Proof.
  unfold batchLeads. revert i.
  induction ts as [|t0 ts IH]; intros [|i] Ht Hr; try done; cbn in *.
  - injection Ht as ->. rewrite Hr. cbn. apply Permutation_app_comm.
  - rewrite (IH i Ht Hr). by rewrite app_assoc.
Qed.

Lemma batchLeads_all_Done (results : list (list Lead)) :
  batchLeads (Done <$> results) = concat results.
Proof.
  unfold batchLeads. induction results as [|r rs IH]; [done|].
  cbn in *. by rewrite IH.
Qed.

Lemma batchLeads_replicate (n : nat) : batchLeads (replicate n AwaitRead) = [].
Proof. unfold batchLeads. induction n as [|n IH]; [done|]. exact IH. Qed.

Lemma allResults_replicate (n : nat) :
  n ≠ 0%nat → allResults (replicate n AwaitRead) = None.
Proof. by destruct n. Qed.

(** A segment of a callback draws one id for each lead that it returns,
    and no other. *)
Lemma resume_draws (B : Browser) (sender company : string)
    (uploads : list Upload) (i : nat) (b : Batch) :
  ∃ new,
    batchLeads (tasks (resume B sender company uploads i b)) ≡ₚ
      batchLeads (tasks b) ++ new ∧
    id <$> new = randomUUID B <$> seq (uuidCalls (fx b)) (length new) ∧
    uuidCalls (fx (resume B sender company uploads i b)) =
      (uuidCalls (fx b) + length new)%nat.
Proof.
  unfold resume.
  destruct (uploads !! i) as [up|];
    [|exists []; by rewrite app_nil_r, Nat.add_0_r].
  destruct (tasks b !! i) as [t|] eqn:Ht;
    [|exists []; by rewrite app_nil_r, Nat.add_0_r].
  assert (Hsame : ∀ t', returned t = [] → returned t' = [] →
            batchLeads (<[i := t']> (tasks b)) ≡ₚ batchLeads (tasks b) ++ []).
  { intros t' Hr Hr'. by rewrite (batchLeads_insert _ _ _ _ Ht Hr), Hr'. }
  destruct t as [| |result];
    [| |exists []; by rewrite app_nil_r, Nat.add_0_r].
  - destruct (readFile _ _); exists []; cbn -[batchLeads];
      by rewrite Hsame, Nat.add_0_r.
  - destruct (extraction up) as [data|]; [destruct (Nat.eqb _ _)|];
      [exists []; cbn -[batchLeads]; by rewrite Hsame, Nat.add_0_r
      | |exists []; cbn -[batchLeads]; by rewrite Hsame, Nat.add_0_r].
    eexists. cbn -[batchLeads].
    rewrite (batchLeads_insert _ _ _ _ Ht) by done. cbn [returned].
    split; [reflexivity|]. by rewrite toLeads_ids, toLeads_length.
Qed.

Lemma concat_fmap_insert {A C} (f : A → list C) (l : list A) (j : nat)
    (x x' : A) (new : list C) :
  l !! j = Some x → f x' ≡ₚ f x ++ new →
  concat (f <$> <[j := x']> l) ≡ₚ concat (f <$> l) ++ new.
Proof.
  revert j. induction l as [|y l IH]; intros [|j] Hj Hf; try done; cbn in *.
  - injection Hj as ->. rewrite Hf, <- !app_assoc.
    apply Permutation_app_head, Permutation_app_comm.
  - by rewrite (IH j Hj Hf), app_assoc.
Qed.

Lemma concat_fmap_delete {A C} (f : A → list C) (l : list A) (j : nat) (x : A) :
  l !! j = Some x →
  concat (f <$> l) ≡ₚ f x ++ concat (f <$> delete j l).
Proof.
  revert j. induction l as [|y l IH]; intros [|j] Hj; try done; cbn in *.
  - by injection Hj as ->.
  - rewrite (IH j Hj), !app_assoc.
    apply Permutation_app_tail, Permutation_app_comm.
Qed.

(** When the handler returns, [processFiles] has returned at one of its
    guards or is suspended, with [readFile] called on every file. *)
Lemma processFiles_suspends (B : Browser) (sender company : string)
    (uploads : list Upload) (s : Session) :
  processFiles B sender company uploads [] s =
    if Nat.eqb (length uploads) 0 then Returned s
    else if Nat.ltb 10 (length uploads) then
      Returned {| app := setErrorMsg (Some BatchTooLarge) (app s);
                  world := world s |}
    else
      Pending {| app := setErrorMsg None (setStatus PROCESSING (app s));
                 world := fx (startBatch uploads (world s)) |}.
Proof.
  unfold processFiles.
  destruct (Nat.eqb (length uploads) 0) eqn:Hz; [done|].
  destruct (Nat.ltb 10 (length uploads)); [done|].
  cbv zeta. unfold settleAll, runSchedule. cbn [foldl startBatch tasks].
  by rewrite allResults_replicate by by apply Nat.eqb_neq.
Qed.

Section Pages.
Context (B : Browser).

Lemma initialPage_pageIds : pageIds B initialPage.
Proof. unfold pageIds. by cbn. Qed.

(** A handler that returns leaves the leads and the draws as they were. *)
Lemma handlerReturns_pageIds (sender company : string)
    (files : option (list Upload)) (p : Page) :
  pageIds B p →
  pageIds B (handlerReturns sender company (default [] files)
               (match files with
                | Some fs =>
                    if Nat.ltb 0 (length fs)
                    then processFiles B sender company fs [] (session p)
                    else Returned (session p)
                | None => Returned (session p)
                end) p).
Proof.
  intros Hp. destruct files as [fs|]; [|exact Hp].
  destruct (Nat.ltb 0 (length fs)); [|exact Hp].
  rewrite processFiles_suspends.
  destruct (Nat.eqb (length fs) 0) eqn:Hz; [exact Hp|].
  destruct (Nat.ltb 10 (length fs)); [exact Hp|].
  unfold pageIds, pageLeads in *. simpl default.
  cbn [handlerReturns session invocations app world fx uuidCalls leads
       setErrorMsg setStatus startBatch].
  rewrite !fmap_app, concat_app. cbn [fmap list_fmap concat invTasks].
  rewrite batchLeads_replicate, !app_nil_r, <- fmap_app. exact Hp.
Qed.

Lemma react_pageIds (e : Event) (p : Page) :
  pageIds B p → pageIds B (react B e p).
Proof.
  intros Hp. destruct e as [sender company|files|files|j i|j|]; cbn [react].
  - exact Hp.
  - destruct (controlsEnabled _); [|exact Hp].
    by apply handlerReturns_pageIds.
  - destruct (controlsEnabled _); [|exact Hp].
    by apply handlerReturns_pageIds.
  - destruct (invocations p !! j) as [c|] eqn:Hc; [|exact Hp]. cbv zeta.
    destruct (resume_draws B (invSender c) (invCompany c) (invUploads c) i
                {| tasks := invTasks c; errors := invErrors c;
                   fx := world (session p) |}) as (new & Hnew & Hids & Hu).
    cbn [tasks fx] in Hnew, Hids, Hu.
    unfold pageIds, pageLeads in *. cbn [session invocations app world].
    rewrite (concat_fmap_insert (λ c, batchLeads (invTasks c)) _ _ _ _ new Hc)
      by exact Hnew.
    rewrite app_assoc, fmap_app, Hp, Hids, Hu, seq_app, fmap_app. done.
  - destruct (invocations p !! j) as [c|] eqn:Hc; [|exact Hp].
    destruct (allResults (invTasks c)) as [results|] eqn:Hall; [|exact Hp].
    apply allResults_Done in Hall.
    pose proof (concat_fmap_delete (λ c, batchLeads (invTasks c)) _ _ _ Hc)
      as Hdel.
    cbn beta in Hdel. rewrite Hall, batchLeads_all_Done in Hdel.
    unfold pageIds, pageLeads in *. cbn [session invocations app world].
    rewrite <- Hp, Hdel, finishBatch_cases.
    destruct (concat results) as [|l ls];
      destruct (invErrors c) as [|e es];
      cbn [leads catchBatchError setStatus setErrorMsg setLeads app_nil_l
           app]; try done;
      unfold merge, processedBatch;
      rewrite !fmap_app, processBatchFrom_ids;
      rewrite !app_assoc; apply Permutation_app_tail, Permutation_app_comm.
  - destruct (timers p); exact Hp.
Qed.

Lemma runEvents_pageIds (events : list Event) (p : Page) :
  pageIds B p → pageIds B (runEvents B events p).
Proof.
  unfold runEvents. revert p.
  induction events as [|e events IH]; intros p Hp; [done|].
  cbn. apply IH. by apply react_pageIds.
Qed.

(** In a session the ids of the history and those of the leads that the
    suspended calls hold are the values drawn so far. *)
Lemma reachable_ids (s : Session) :
  reachable B s →
  ∃ held : list Lead,
    id <$> (leads (app s) ++ held) ≡ₚ
      randomUUID B <$> seq 0 (uuidCalls (world s)).
Proof.
  intros [events <-]. eexists.
  apply (runEvents_pageIds events initialPage initialPage_pageIds).
Qed.

Lemma reachable_NoDup (s : Session) :
  reachable B s →
  (∀ j k, randomUUID B j = randomUUID B k → j = k) →
  NoDup (id <$> leads (app s)).
Proof.
  intros Hreach Hinj. destruct (reachable_ids s Hreach) as [held Hids].
  assert (Hnd : NoDup (id <$> (leads (app s) ++ held))).
  { rewrite Hids. apply NoDup_fmap_2; [|apply NoDup_seq].
    intros j k. apply Hinj. }
  rewrite fmap_app in Hnd. by apply NoDup_app in Hnd as [Hnd _].
Qed.
End Pages.

(** *** A call of [processFiles] as a run of the page *)

Lemma runEvents_resumes (B : Browser) (schedule : list nat) (p : Page)
    (j : nat) (c : Invocation) :
  invocations p !! j = Some c →
  let b := runSchedule B (invSender c) (invCompany c) (invUploads c) schedule
             {| tasks := invTasks c; errors := invErrors c;
                fx := world (session p) |} in
  runEvents B (CallbackResumes j <$> schedule) p =
    {| session := {| app := app (session p); world := fx b |};
       invocations :=
         <[j := {| invUploads := invUploads c; invSender := invSender c;
                   invCompany := invCompany c; invTasks := tasks b;
                   invErrors := errors b |}]> (invocations p);
       timers := timers p |}.
Proof.
  unfold runEvents, runSchedule. revert p c.
  induction schedule as [|i schedule IH]; intros p c Hc; cbn [fmap list_fmap foldl].
  - cbn. destruct p as [[a w] invs t], c; cbn in *.
    by rewrite list_insert_id.
  - cbn [react]. rewrite Hc. cbv zeta.
    set (b1 := resume B (invSender c) (invCompany c) (invUploads c) i
                 {| tasks := invTasks c; errors := invErrors c;
                    fx := world (session p) |}).
    rewrite (IH _ {| invUploads := invUploads c; invSender := invSender c;
                     invCompany := invCompany c; invTasks := tasks b1;
                     invErrors := errors b1 |}).
    + cbn [invocations session app world timers invUploads invSender
           invCompany invTasks invErrors].
      rewrite list_insert_insert_eq. by destruct b1.
    + cbn [invocations]. apply list_lookup_insert_eq. by eapply lookup_lt_Some.
Qed.

Lemma runEvents_app (B : Browser) (events1 events2 : list Event) (p : Page) :
  runEvents B (events1 ++ events2) p =
    runEvents B events2 (runEvents B events1 p).
Proof. unfold runEvents. apply foldl_app. Qed.

Lemma runEvents_no_call (B : Browser) (schedule : list nat) (p : Page) (j : nat) :
  invocations p !! j = None →
  runEvents B ((CallbackResumes j <$> schedule) ++ [PromiseAllResolves j]) p = p.
Proof.
  intros Hj. unfold runEvents. rewrite foldl_app.
  assert (foldl (λ p e, react B e p) p (CallbackResumes j <$> schedule) = p)
    as ->.
  { induction schedule as [|i schedule IH]; [done|]. cbn. by rewrite Hj. }
  cbn. by rewrite Hj.
Qed.

(** The call of [processFiles] that closes over [sender] and [company],
    made on [uploads] from a page and run with no other event in between:
    what the function returns is what becomes of the page. *)
Lemma processFiles_run (B : Browser) (sender company : string)
    (uploads : list Upload) (schedule : list nat) (p : Page) (s' : Session) :
  processFiles B sender company uploads schedule (session p) = Returned s' →
  session
    (runEvents B
       ((CallbackResumes (length (invocations p)) <$> schedule) ++
        [PromiseAllResolves (length (invocations p))])
       (handlerReturns sender company uploads
          (processFiles B sender company uploads [] (session p)) p)) = s'.
Proof.
  rewrite processFiles_suspends. unfold processFiles.
  destruct (Nat.eqb (length uploads) 0) eqn:Hz.
  { intros [= <-]. rewrite runEvents_no_call; [done|].
    by apply lookup_ge_None. }
  destruct (Nat.ltb 10 (length uploads)).
  { intros [= <-]. rewrite runEvents_no_call; [done|].
    by apply lookup_ge_None. }
  cbv zeta. cbn [handlerReturns]. intros Hret.
  rewrite runEvents_app.
  erewrite runEvents_resumes;
    [|cbn [invocations]; by rewrite lookup_app_r, Nat.sub_diag by lia].
  unfold runEvents.
  cbn [invocations session app world timers invUploads invSender invCompany
       invTasks invErrors foldl react].
  rewrite list_lookup_insert_eq by (rewrite length_app; cbn; lia).
  cbn [invTasks invErrors].
  change (runSchedule B sender company uploads schedule _)
    with (settleAll B sender company uploads schedule (session p)).
  destruct (allResults _) as [results|]; [|done].
  injection Hret as <-. reflexivity.
Qed.

Lemma reachable_initial (B : Browser) : reachable B initialSession.
Proof. by exists []. Qed.

(** A call that a handler makes while the controls are enabled, and that
    runs to its end, leads from a session to a session. *)
Lemma reachable_handler (B : Browser) (files : option (list Upload))
    (schedule : list nat) (s s' : Session) :
  reachable B s → controlsEnabled (app s) = true →
  handleInputChange B files schedule s = Returned s' ∨
  handleDrop B files schedule s = Returned s' →
  reachable B s'.
Proof.
  intros [events <-] Hon Hret.
  set (p := runEvents B events initialPage) in *.
  set (rest := (CallbackResumes (length (invocations p)) <$> schedule) ++
               [PromiseAllResolves (length (invocations p))]).
  assert (Hnone : ∀ sender company,
            session (runEvents B rest
                       (handlerReturns sender company (default [] files)
                          (Returned (session p)) p)) = session p).
  { intros sender company. unfold rest.
    rewrite runEvents_no_call; [done|]. by apply lookup_ge_None. }
  destruct Hret as [Hret|Hret].
  - exists (events ++ InputChange files :: rest).
    rewrite runEvents_app. fold p. unfold runEvents at 1.
    cbn [foldl react]. fold (runEvents B rest). rewrite Hon.
    unfold handleInputChange in *. destruct files as [fs|].
    + destruct (Nat.ltb 0 (length fs)).
      * by apply processFiles_run.
      * injection Hret as <-. apply Hnone.
    + injection Hret as <-. apply Hnone.
  - exists (events ++ FilesDropped files :: rest).
    rewrite runEvents_app. fold p. unfold runEvents at 1.
    cbn [foldl react]. fold (runEvents B rest). rewrite Hon.
    unfold handleDrop in *. destruct files as [fs|].
    + destruct (Nat.ltb 0 (length fs)).
      * by apply processFiles_run.
      * injection Hret as <-. apply Hnone.
    + injection Hret as <-. apply Hnone.
Qed.

(** X6.  In every session of the component, calls of [processFiles] that
    overlap included, the ids of the history are values that
    [crypto.randomUUID] has returned to the component, no value of one
    call being the id of two leads, and there are no more leads than
    calls; so when [crypto.randomUUID] never returns the same value twice,
    no two leads of the history have the same id. *)
Theorem session_ids_unique (B : Browser) (s : Session) :
  reachable B s →
  (∃ ks : list nat,
     NoDup ks ∧ Forall (λ k, (k < uuidCalls (world s))%nat) ks ∧
     id <$> leads (app s) = randomUUID B <$> ks) ∧
  (totalLeads (leads (app s)) ≤ uuidCalls (world s))%nat ∧
  ((∀ j k, randomUUID B j = randomUUID B k → j = k) →
   NoDup (id <$> leads (app s))).
Proof.
  intros Hreach. destruct (reachable_ids B s Hreach) as [held Hids].
  split_and!.
  - apply Permutation_map_inv in Hids as (ks & Hks & Hperm).
    change (map (randomUUID B) ks) with (randomUUID B <$> ks) in Hks.
    rewrite fmap_app in Hks. symmetry in Hks.
    apply fmap_app_inv in Hks as (ks1 & ks2 & Hk1 & _ & ->).
    assert (Hnd : NoDup (ks1 ++ ks2)) by (rewrite <- Hperm; apply NoDup_seq).
    exists ks1. split_and!.
    + by apply NoDup_app in Hnd as [Hnd _].
    + apply Forall_forall. intros k Hk.
      assert (Hin : k ∈ seq 0 (uuidCalls (world s)))
        by (rewrite Hperm; apply elem_of_app; by left).
      apply elem_of_seq in Hin. lia.
    + exact Hk1.
  - apply Permutation_length in Hids.
    rewrite !length_fmap, length_app, length_seq in Hids.
    unfold totalLeads. lia.
  - by apply reachable_NoDup.
Qed.

(** *** The calls of a batch *)

Lemma zip_with_insert_same {A} (f : Upload → Task → A)
    (uploads : list Upload) (ts : list Task) (i : nat) (up : Upload)
    (t t' : Task) :
  uploads !! i = Some up → ts !! i = Some t → f up t' = f up t →
  zip_with f uploads (<[i := t']> ts) = zip_with f uploads ts.
Proof.
  revert ts i.
  induction uploads as [|up0 uploads IH]; intros [|t0 ts] [|i] Hup Ht Hf;
    try done; cbn in *.
  - injection Hup as ->. injection Ht as ->. by rewrite Hf.
  - f_equal. by apply IH.
Qed.

Lemma zip_with_insert_fresh {A} (f : Upload → Task → list A)
    (uploads : list Upload) (ts : list Task) (i : nat) (up : Upload)
    (t t' : Task) :
  uploads !! i = Some up → ts !! i = Some t → f up t = [] →
  concat (zip_with f uploads (<[i := t']> ts)) ≡ₚ
    concat (zip_with f uploads ts) ++ f up t'.
Proof.
  revert ts i.
  induction uploads as [|up0 uploads IH]; intros [|t0 ts] [|i] Hup Ht Hf;
    try done; cbn in *.
  - injection Hup as ->. injection Ht as ->. rewrite Hf. cbn.
    apply Permutation_app_comm.
  - rewrite (IH ts i Hup Ht Hf). by rewrite app_assoc.
Qed.

Lemma resume_callsInv (B : Browser) (sender company : string)
    (uploads : list Upload) (e : Effects) (i : nat) (b : Batch) :
  callsInv sender company uploads e b →
  callsInv sender company uploads e (resume B sender company uploads i b).
Proof.
  intros (Hreads & new & Hcalls & Hnew). unfold resume.
  destruct (uploads !! i) as [up|] eqn:Hup; [|by split; [|exists new]].
  destruct (tasks b !! i) as [t|] eqn:Ht; [|by split; [|exists new]].
  destruct t as [| |result]; [| |by split; [|exists new]].
  - destruct (readFile (file up) (reader up)) as [decoded|message] eqn:Hread;
      (split; [done|]); cbn.
    + eexists. rewrite Hcalls, <- app_assoc. split; [reflexivity|].
      rewrite (zip_with_insert_fresh _ _ _ _ _ AwaitRead _ Hup Ht) by done.
      rewrite Hnew. cbn. unfold fileCall. by rewrite Hread.
    + exists new. split; [done|].
      rewrite (zip_with_insert_fresh _ _ _ _ _ AwaitRead _ Hup Ht) by done.
      cbn. unfold fileCall. rewrite Hread. cbn. by rewrite app_nil_r.
  - destruct (extraction up) as [data|]; [destruct (Nat.eqb _ _)|];
      (split; [done|]); cbn; exists new; (split; [done|]);
      by rewrite (zip_with_insert_same _ _ _ _ _ AwaitExtract _ Hup Ht).
Qed.

Lemma settleAll_callsInv (B : Browser) (sender company : string)
    (uploads : list Upload) (schedule : list nat) (s : Session) :
  callsInv sender company uploads (world s)
    (settleAll B sender company uploads schedule s).
Proof.
  unfold settleAll, runSchedule.
  assert (H0 : callsInv sender company uploads (world s)
                 (startBatch uploads (world s))).
  { split; [done|]. exists []. split; [cbn; by rewrite app_nil_r|]. cbn.
    induction uploads as [|up ups IH]; [done|]. cbn. exact IH. }
  revert H0. generalize (startBatch uploads (world s)).
  induction schedule as [|i schedule IH]; intros b Hb; [done|].
  cbn. apply IH. by apply resume_callsInv.
Qed.

Lemma called_all_Done (sender company : string) (uploads : list Upload)
    (results : list (list Lead)) :
  length uploads = length results →
  concat (zip_with (called sender company) uploads (Done <$> results)) =
    omap (fileCall sender company) uploads.
Proof.
  revert results.
  induction uploads as [|up ups IH]; intros [|r rs] Hlen; try done.
  cbn in *. rewrite (IH rs) by lia. by destruct (fileCall sender company up).
Qed.

(** X7.  When a call of [processFiles] has returned for a batch of one
    to ten files, [readFile] has been called once on every file, in
    file-array order, and the gateway once for every file that [readFile]
    resolved and for no other, with what [readFile] resolved with and with
    the sender and company names that the closure of the call holds: a
    file is never tried twice, and a file that cannot be decoded never
    reaches the gateway.  The names are those on display when the files
    come from the file input, and those of the first render, which are
    empty, when the files are dropped on the drop zone. *)
Theorem one_attempt_per_file (B : Browser) (sender company : string)
    (uploads : list Upload) (schedule : list nat) (s s' : Session) :
  (0 < length uploads ≤ 10)%nat →
  processFiles B sender company uploads schedule s = Returned s' →
  (readFileCalls (world s') =
     readFileCalls (world s) ++ ((λ up, File.name (file up)) <$> uploads) ∧
   ∃ new,
     gatewayCalls (world s') = gatewayCalls (world s) ++ new ∧
     new ≡ₚ omap (λ up,
                   match readFile (file up) (reader up) with
                   | Resolved decoded =>
                       Some {| callContent := content decoded;
                               callMimeType := mimeType decoded;
                               callSenderName := sender;
                               callCompanyName := company |}
                   | Rejected _ => None
                   end) uploads) ∧
  handleInputChange B (Some uploads) schedule s =
    processFiles B (senderName (app s)) (companyName (app s))
      uploads schedule s ∧
  handleDrop B (Some uploads) schedule s =
    processFiles B "" "" uploads schedule s.
Proof.
  intros Hsize Hret.
  assert (Hpos : Nat.ltb 0 (length uploads) = true) by (apply Nat.ltb_lt; lia).
  split; [|unfold handleInputChange, handleDrop; by rewrite Hpos].
  assert (Hdone : completes B sender company uploads schedule s = true).
  { unfold completes. unfold processFiles in Hret.
    destruct (Nat.eqb_neq (length uploads) 0) as [_ Hz];
      rewrite Hz in Hret by lia.
    destruct (Nat.ltb_ge 10 (length uploads)) as [_ Hl];
      rewrite Hl in Hret by lia.
    cbv zeta in Hret. by destruct (allResults _). }
  destruct (processFiles_settled B sender company uploads schedule s Hsize Hdone)
    as (results & Hall & Hcand & _ & Heq).
  rewrite Heq in Hret. cbv zeta in Hret.
  assert (Hw : world s' = fx (settleAll B sender company uploads schedule s))
    by (by injection Hret as <-).
  destruct (settleAll_callsInv B sender company uploads schedule s)
    as (Hreads & new & Hc & Hn).
  rewrite Hw. split; [done|]. exists new. split; [done|].
  destruct (settleAll_results _ _ _ _ _ _ _ Hall) as [HF _].
  apply allResults_Done in Hall. rewrite Hall in Hn.
  rewrite Hn. rewrite called_all_Done; [done|]. by apply Forall2_length in HF.
Qed.

(** ** The file decoder and the gateway *)

(** X8.  What [readFile] resolves with for a file is what the gateway
    sends for it: the payload of an image as inline data under the type
    of the file, and the text of any other file, as the reader delivered
    it, behind the fixed heading; a text file is never sent as inline
    data, whatever its declared type. *)
Theorem request_matches_file (f : File.t) (ev : ReaderEvent)
    (decoded : Decoded) (c : string) :
  readFile f ev = Resolved decoded →
  content decoded = Some c →
  buildContents c (mimeType decoded) =
    (if startsWith (File.type f) "image/"
     then [InlineData (File.type f) c;
           TextPart "Extract the driver list from this image. Return valid JSON."]
     else [TextPart ("Extract the driver list from the following text data:"
                     +:+ newline +:+ newline +:+ c)]) ∧
  (startsWith (File.type f) "image/" = false → ev = ReaderLoad c).
Proof.
  unfold readFile, buildContents. intros Hread Hc.
  destruct (startsWith (File.type f) "image/") eqn:Himg.
  - destruct ev as [result|]; [|done]. injection Hread as <-.
    cbn [mimeType content] in *. by rewrite Himg.
  - destruct (_ || _); [|done]. destruct ev as [result|]; [|done].
    injection Hread as <-. cbn [mimeType content] in *.
    injection Hc as ->. done.
Qed.

(** ** The sanitizer of the gateway *)

Lemma removeAll_noBacktick (pat' a rest : string) :
  noBacktick a = true →
  removeAll (String "`"%char pat') 0 (a +:+ rest) =
    a +:+ removeAll (String "`"%char pat') 0 rest.
Proof.
  intros Ha. induction a as [|c a IH]; [done|].
  cbn in Ha. apply andb_true_iff in Ha as [Hc Ha].
  apply negb_true_iff, Ascii.eqb_neq in Hc.
  rewrite !string_app_cons. cbn [removeAll String.prefix].
  destruct (ascii_dec "`" c) as [<-|_]; [done|]. by rewrite IH.
Qed.

Lemma removeAll_noBacktick_all (pat' a : string) :
  noBacktick a = true → removeAll (String "`"%char pat') 0 a = a.
Proof.
  intros Ha. induction a as [|c a IH]; [done|].
  cbn in Ha. apply andb_true_iff in Ha as [Hc Ha].
  apply negb_true_iff, Ascii.eqb_neq in Hc.
  cbn [removeAll String.prefix].
  destruct (ascii_dec "`" c) as [<-|_]; [done|]. by rewrite IH.
Qed.

Lemma noBacktick_app (a b : string) :
  noBacktick (a +:+ b) = noBacktick a && noBacktick b.
Proof.
  induction a as [|c a IH]; [done|].
  rewrite string_app_cons. cbn [noBacktick]. by rewrite IH, andb_assoc.
Qed.

Lemma prefix_backtick_step (p : string) (c : ascii) (t : string) :
  String.prefix (String "`"%char p) (String c t) =
    Ascii.eqb c "`"%char && String.prefix p t.
Proof.
  cbn [String.prefix]. destruct (ascii_dec "`" c) as [<-|Hne]; [done|].
  apply not_eq_sym, Ascii.eqb_neq in Hne. by rewrite Hne.
Qed.

Lemma removeAll_fenceJson_opening (rest : string) :
  removeAll fenceJson 0 (fenceJson +:+ rest) = removeAll fenceJson 0 rest.
Proof.
  pose proof (prefix_app_l fenceJson rest) as Hp.
  destruct (fenceJson +:+ rest) as [|c0 s0] eqn:Heq; [done|].
  cbn [removeAll]. rewrite Hp. injection Heq as <- <-. reflexivity.
Qed.

Lemma removeAll_fence_self (rest : string) :
  removeAll fence 0 (fence +:+ rest) = removeAll fence 0 rest.
Proof.
  pose proof (prefix_app_l fence rest) as Hp.
  destruct (fence +:+ rest) as [|c0 s0] eqn:Heq; [done|].
  cbn [removeAll]. rewrite Hp. injection Heq as <- <-. reflexivity.
Qed.

Lemma removeAll_fenceJson_closing (post : string) :
  noBacktick post = true → String.prefix "json" post = false →
  removeAll fenceJson 0 (fence +:+ post) = fence +:+ post.
Proof.
  intros Hpost Hjson.
  destruct post as [|c post]; [reflexivity|].
  cbn in Hpost. apply andb_true_iff in Hpost as [Hc Hpost].
  apply negb_true_iff in Hc.
  change (fence +:+ String c post)
    with (String "`" (String "`" (String "`" (String c post)))).
  assert (Hp3 : String.prefix fenceJson
            (String "`" (String "`" (String "`" (String c post)))) = false).
  { unfold fenceJson. rewrite !prefix_backtick_step. exact Hjson. }
  assert (Hp2 : String.prefix fenceJson
            (String "`" (String "`" (String c post))) = false).
  { unfold fenceJson. rewrite !prefix_backtick_step, Hc. done. }
  assert (Hp1 : String.prefix fenceJson (String "`" (String c post)) = false).
  { unfold fenceJson. rewrite !prefix_backtick_step, Hc. done. }
  assert (Hp0 : String.prefix fenceJson (String c post) = false).
  { unfold fenceJson. by rewrite prefix_backtick_step, Hc. }
  cbn [removeAll]. rewrite Hp3, Hp2, Hp1, Hp0.
  do 4 f_equal. by apply (removeAll_noBacktick_all "``json").
Qed.

Lemma trimStart_allWhiteSpace (s : string) :
  allWhiteSpace s = true → trimStart s = "".
Proof.
  induction s as [|c s IH]; [done|]. cbn [allWhiteSpace trimStart].
  intros [Hc Hs]%andb_true_iff. rewrite Hc. by apply IH.
Qed.

Lemma allWhiteSpace_noBacktick (s : string) :
  allWhiteSpace s = true → noBacktick s = true.
Proof.
  induction s as [|c s IH]; [done|]. cbn [allWhiteSpace noBacktick].
  intros [Hc Hs]%andb_true_iff. rewrite (IH Hs), andb_true_r.
  apply negb_true_iff, Ascii.eqb_neq. by intros ->.
Qed.

(** X9.  The sanitizer leaves a response without backticks alone, but for
    the white space around it. *)
Theorem cleanJsonOutput_plain (text : string) :
  text ≠ "" → noBacktick text = true → cleanJsonOutput text = trim text.
Proof.
  intros Hne Hfree. unfold cleanJsonOutput.
  destruct (String.eqb_spec text ""); [done|].
  unfold fence, fenceJson.
  by rewrite (removeAll_noBacktick_all "``json" text Hfree),
             (removeAll_noBacktick_all "``" text Hfree).
Qed.

(** X10.  A response that holds its JSON in a Markdown block, opened by
    the fence with the [json] tag and closed by the plain fence, is
    cleaned to the text without the two fences, trimmed. *)
Theorem cleanJsonOutput_unwraps (pre body post : string) :
  noBacktick pre = true → noBacktick body = true → noBacktick post = true →
  String.prefix "json" post = false →
  cleanJsonOutput (pre +:+ fenceJson +:+ body +:+ fence +:+ post) =
    trim (pre +:+ body +:+ post).
Proof.
  intros Hpre Hbody Hpost Hjson. unfold cleanJsonOutput.
  destruct (String.eqb_spec (pre +:+ fenceJson +:+ body +:+ fence +:+ post) "")
    as [Hnil|_].
  { destruct pre; discriminate Hnil. }
  f_equal. unfold fenceJson at 1. unfold fence at 2.
  rewrite (removeAll_noBacktick "``json" pre) by done.
  change (String "`" "``json") with fenceJson.
  rewrite removeAll_fenceJson_opening.
  rewrite (removeAll_noBacktick "``json" body) by done.
  change (String "`" "``json") with fenceJson.
  rewrite removeAll_fenceJson_closing by done.
  rewrite (removeAll_noBacktick "``" pre) by done.
  rewrite (removeAll_noBacktick "``" body) by done.
  change (String "`" "``") with fence.
  rewrite removeAll_fence_self. unfold fence.
  by rewrite (removeAll_noBacktick_all "``" post).
Qed.

(** X11.  A response of white space only is an extraction failure (for a
    [JSON.parse] that refuses the empty text, as it does), although a
    response without text is an empty list of leads. *)
Theorem blank_response_rejected (JSON_parse : string → option JSON)
    (generateContent : Request → GenerateContent)
    (fileContent mimeType senderName companyName text : string) :
  JSON_parse "" = None →
  generateContent {| contents := buildContents fileContent mimeType;
                     instructionSender := senderName;
                     instructionCompany := companyName |}
    = Response (Some text) →
  text ≠ "" → allWhiteSpace text = true →
  cleanJsonOutput text = "" ∧
  extractLeadsFromFile JSON_parse generateContent
    fileContent mimeType senderName companyName = Rejected ExtractionFailure.
Proof.
  intros Hparse Hgen Hne Hws.
  assert (Hclean : cleanJsonOutput text = "").
  { unfold cleanJsonOutput. destruct (String.eqb_spec text ""); [done|].
    pose proof (allWhiteSpace_noBacktick text Hws) as Hfree.
    unfold fence, fenceJson.
    rewrite (removeAll_noBacktick_all "``json" text Hfree),
            (removeAll_noBacktick_all "``" text Hfree).
    unfold trim. by rewrite (trimStart_allWhiteSpace text Hws). }
  split; [done|]. unfold extractLeadsFromFile. rewrite Hgen.
  destruct (String.eqb_spec text ""); [done|]. by rewrite Hclean, Hparse.
Qed.

Lemma string_app_assoc (a b c : string) : (a +:+ b) +:+ c = a +:+ (b +:+ c).
Proof.
  induction a as [|ch a IH]; [done|]. rewrite !string_app_cons. by rewrite IH.
Qed.

Lemma string_app_nil_r (a : string) : a +:+ "" = a.
Proof. induction a as [|ch a IH]; [done|]. rewrite string_app_cons. by rewrite IH. Qed.

Lemma string_rev_app_spec (s acc : string) :
  String.rev_app s acc = String.rev s +:+ acc.
Proof.
  revert acc. induction s as [|c s IH]; intros acc; [done|].
  unfold String.rev. cbn [String.rev_app].
  rewrite (IH (String c acc)), (IH (String c "")).
  by rewrite string_app_assoc.
Qed.

Lemma string_rev_cons (c : ascii) (s : string) :
  String.rev (String c s) = String.rev s +:+ String c "".
Proof. unfold String.rev at 1. cbn [String.rev_app]. apply string_rev_app_spec. Qed.

Lemma string_rev_app (a b : string) :
  String.rev (a +:+ b) = String.rev b +:+ String.rev a.
Proof.
  induction a as [|c a IH]; [by rewrite string_app_nil_r|].
  by rewrite string_app_cons, !string_rev_cons, IH, string_app_assoc.
Qed.

Lemma string_rev_involutive (s : string) : String.rev (String.rev s) = s.
Proof.
  induction s as [|c s IH]; [done|].
  by rewrite string_rev_cons, string_rev_app, IH.
Qed.

Lemma trimStart_decompose (s : string) : ∃ pre, s = pre +:+ trimStart s.
Proof.
  induction s as [|c s [pre IH]]; [by exists ""|]. cbn [trimStart].
  destruct (isWhiteSpace c).
  - exists (String c pre). by rewrite string_app_cons, <- IH.
  - by exists "".
Qed.

(** [s.trim()] is a piece of [s]. *)
Lemma trim_decompose (s : string) : ∃ pre post, s = pre +:+ trim s +:+ post.
Proof.
  destruct (trimStart_decompose s) as [pre Hpre].
  destruct (trimStart_decompose (String.rev (trimStart s))) as [pre2 Hpre2].
  exists pre, (String.rev pre2). unfold trim.
  rewrite <- string_rev_app, <- Hpre2, string_rev_involutive. exact Hpre.
Qed.

Lemma includes_spec (s pat : string) :
  includes s pat = true ↔ ∃ a b, s = a +:+ pat +:+ b.
Proof.
  split.
  - induction s as [|c s IH].
    + cbn [includes]. rewrite orb_false_r. intros Hp.
      apply (startsWith_spec "" pat) in Hp as [rest Hrest]. by exists "", rest.
    + cbn [includes]. intros [Hp|Hin]%orb_true_iff.
      * apply (startsWith_spec (String c s) pat) in Hp as [rest Hrest].
        by exists "", rest.
      * destruct (IH Hin) as (a & b & ->). by exists (String c a), b.
  - intros (a & b & ->). induction a as [|c a IH].
    + assert (Hp : String.prefix pat (pat +:+ b) = true) by apply prefix_app_l.
      change ("" +:+ pat +:+ b) with (pat +:+ b).
      destruct (pat +:+ b); cbn [includes]; by rewrite Hp.
    + rewrite string_app_cons. cbn [includes]. by rewrite IH, orb_true_r.
Qed.

Lemma includes_trim (s pat : string) :
  includes s pat = false → includes (trim s) pat = false.
Proof.
  intros Hs. apply not_true_iff_false. intros Ht.
  apply not_true_iff_false in Hs. apply Hs.
  apply includes_spec in Ht as (a & b & Ht).
  destruct (trim_decompose s) as (pre & post & Hdec).
  apply includes_spec. exists (pre +:+ a), (b +:+ post).
  rewrite Hdec at 1. rewrite Ht. by rewrite !string_app_assoc.
Qed.

Lemma prefix_fence_ticks (s : string) :
  String.prefix fence s = Nat.leb 3 (ticks s).
Proof.
  unfold fence.
  destruct s as [|c1 [|c2 [|c3 s]]]; cbn [ticks];
    rewrite ?prefix_backtick_step;
    repeat match goal with
           | |- context [Ascii.eqb ?c "`"%char] =>
               is_var c; destruct (Ascii.eqb c "`"%char)
           end; try done.
  by destruct s.
Qed.

Lemma ticks_cons_mono (c : ascii) (s t : string) :
  (ticks s ≤ ticks t)%nat → (ticks (String c s) ≤ ticks (String c t))%nat.
Proof. cbn [ticks]. destruct (Ascii.eqb c "`"); lia. Qed.

(** Removing the fences leaves no fence, and no more backticks at the
    head than there were. *)
Lemma removeAll_fence_inv (s : string) (k : nat) :
  includes (removeAll fence k s) fence = false ∧
  (ticks (removeAll fence k s) ≤ ticks (skipChars k s))%nat.
Proof.
  revert k. induction s as [|c s IH]; intros k.
  - destruct k; by split.
  - destruct k as [|k]; [|apply IH].
    cbn [removeAll skipChars].
    destruct (String.prefix fence (String c s)) eqn:Hp.
    + destruct (IH 2%nat) as [Hinc Hticks]. split; [exact Hinc|].
      etrans; [exact Hticks|].
      rewrite prefix_fence_ticks in Hp. apply Nat.leb_le in Hp.
      destruct s as [|c2 [|c3 s]]; cbn [skipChars ticks] in *;
        repeat match goal with
               | H : context [Ascii.eqb ?c "`"%char] |- _ =>
                   is_var c; destruct (Ascii.eqb c "`"%char)
               | |- context [Ascii.eqb ?c "`"%char] =>
                   is_var c; destruct (Ascii.eqb c "`"%char)
               end; lia.
    + destruct (IH 0%nat) as [Hinc Hticks]. cbn [skipChars] in Hticks.
      pose proof (ticks_cons_mono c _ _ Hticks) as Hmono.
      split; [|exact Hmono].
      cbn [includes]. rewrite Hinc, orb_false_r.
      rewrite prefix_fence_ticks in Hp |- *.
      apply Nat.leb_gt in Hp. apply Nat.leb_gt. lia.
Qed.

(** X12.  Whatever the response, the text that the sanitizer hands to
    [JSON.parse] holds no Markdown fence: fences are removed wherever they
    stand, those inside the strings of the JSON included. *)
Theorem cleanJsonOutput_no_fence (text : string) :
  includes (cleanJsonOutput text) fence = false.
Proof.
  unfold cleanJsonOutput. destruct (String.eqb text ""); [done|].
  apply includes_trim, removeAll_fence_inv.
Qed.

(** ** The export and the table *)

Lemma split_charFree (sep : ascii) (s : string) :
  charFree sep s = true → split sep s = [s].
Proof.
  induction s as [|c s IH]; [done|]. cbn. intros Hfree.
  apply andb_true_iff in Hfree as [Hc Hs]. apply negb_true_iff in Hc.
  by rewrite Hc, (IH Hs).
Qed.

Lemma split_charFree_sep (sep : ascii) (a rest : string) :
  charFree sep a = true →
  split sep (a +:+ String sep rest) = a :: split sep rest.
Proof.
  induction a as [|c a IH]; intros Hfree.
  - change ("" +:+ String sep rest) with (String sep rest).
    cbn [split]. by rewrite Ascii.eqb_refl.
  - cbn in Hfree. apply andb_true_iff in Hfree as [Hc Ha].
    apply negb_true_iff in Hc.
    rewrite string_app_cons. cbn [split]. by rewrite Hc, (IH Ha).
Qed.

Lemma filter_exported_new (f : string → string) (leads : list Lead) :
  length (filter (λ r, colDuplicate r = "No") (exportRow f <$> leads)) =
  length (filter isNew leads).
Proof.
  induction leads as [|l leads IH]; [done|].
  rewrite fmap_cons, !filter_cons.
  case_decide as H1; case_decide as H2; cbn [colDuplicate exportRow] in H1;
    unfold isNew in H2; cbn [length]; rewrite ?IH; try done;
    destruct (isDuplicate l); done.
Qed.

(** X13.  The export of a history that is not empty writes one row for
    each lead, in the order of the history and with its name, phone
    number, message and source file; the "Duplicate" column gives the
    flags back, so the rows with "No" are as many as the leads that the
    header counts as new; and the file is named after the date of the
    export, the part of the ISO time before its [T]. *)
Theorem export_matches_history (toLocaleDateString : string → string)
    (date time : string) (leads : list Lead) :
  leads ≠ [] → charFree "T" date = true →
  ∃ wb,
    exportToExcel toLocaleDateString (date +:+ "T" +:+ time) leads = Some wb ∧
    fileName wb = "Cold_Leads_" +:+ date +:+ ".xlsx" ∧
    (λ r, (colFullName r, colPhoneNumber r, colSmsMessage r, colSourceFile r))
      <$> rows wb =
    (λ l, (fullName l, phoneNumber l, outreachMessage l, sourceFile l))
      <$> leads ∧
    (λ r, bool_decide (colDuplicate r = "Yes")) <$> rows wb =
      isDuplicate <$> leads ∧
    length (filter (λ r, colDuplicate r = "No") (rows wb)) = newLeads leads.
Proof.
  intros Hne Hdate. unfold exportToExcel.
  destruct leads as [|l leads]; [done|]. cbn [length Nat.eqb].
  eexists. split; [reflexivity|]. cbn [fileName rows].
  change (date +:+ "T" +:+ time) with (date +:+ String "T" time).
  rewrite split_charFree_sep by done. split_and!.
  - done.
  - by rewrite <- list_fmap_compose.
  - rewrite <- list_fmap_compose. apply list_fmap_ext. intros _ x _.
    cbn. by destruct (isDuplicate x).
  - by rewrite filter_exported_new, newLeads_count.
Qed.

(** The export of an empty history writes nothing. *)
Lemma export_of_empty_history (f : string → string) (nowIso : string) :
  exportToExcel f nowIso [] = None.
Proof. reflexivity. Qed.

Lemma filter_rows_new (leads : list Lead) :
  length (filter (λ r, rowBadge r = BadgeNewLead) (tableRow <$> leads)) =
  length (filter isNew leads).
Proof.
  induction leads as [|l leads IH]; [done|].
  rewrite fmap_cons, !filter_cons.
  case_decide as H1; case_decide as H2; cbn [rowBadge tableRow] in H1;
    unfold isNew in H2; cbn [length]; rewrite ?IH; try done;
    destruct (isDuplicate l); done.
Qed.

(** X14.  In every session in which [crypto.randomUUID] never returns a
    value twice, the table shows the "No leads" card exactly as long as
    the history is empty, and otherwise one row for each lead, in the
    order of the history, under React keys that are pairwise distinct;
    the rows with the "New Lead" badge are as many as the header counts,
    and a row is highlighted exactly when its badge is "Duplicate". *)
Theorem table_matches_header (B : Browser) (s : Session) :
  reachable B s →
  (∀ j k, randomUUID B j = randomUUID B k → j = k) →
  match LeadTable (leads (app s)) with
  | EmptyCard => leads (app s) = []
  | Table body =>
      leads (app s) ≠ [] ∧
      rowPhoneNumber <$> body = phoneNumber <$> leads (app s) ∧
      NoDup (rowKey <$> body) ∧
      length (filter (λ r, rowBadge r = BadgeNewLead) body) =
        newLeads (leads (app s)) ∧
      Forall (λ r, rowHighlighted r = true ↔ rowBadge r = BadgeDuplicate) body
  end.
Proof.
  intros Hreach Hinj. pose proof (reachable_NoDup B s Hreach Hinj) as Hnd.
  unfold LeadTable.
  destruct (leads (app s)) as [|l ls] eqn:Hleads; [done|].
  cbn [length Nat.eqb]. split_and!.
  - done.
  - by rewrite <- list_fmap_compose.
  - rewrite <- list_fmap_compose.
    change (rowKey ∘ tableRow) with id. exact Hnd.
  - by rewrite filter_rows_new, newLeads_count.
  - apply Forall_fmap, Forall_forall. intros x _. cbn.
    by destruct (isDuplicate x).
Qed.

(** X15.  The history is made of one block for each batch, the newest
    block first; the block of a batch has the leads of the batch in the
    order of the batch, each with its id, name, phone number, message,
    source file and time as the batch had them: nothing but the duplicate
    flags has changed. *)
Theorem history_newest_first (batches : list (list Lead)) :
  ∃ blocks : list (list Lead),
    runMerges batches = concat (reverse blocks) ∧
    Forall2 (Forall2 sameButFlag) batches blocks.
Proof.
  exists (mergeLog [] batches).
  split; [unfold runMerges; by rewrite foldl_merge_blocks, app_nil_r|].
  generalize (@nil Lead). induction batches as [|B batches IH]; intros H.
  - constructor.
  - cbn [mergeLog]. constructor; [|apply IH].
    apply processBatchFrom_sameButFlag.
Qed.

(** ** The system instruction *)

Lemma hasValue_blank (name : string) :
  allWhiteSpace name = true → hasValue name = false.
Proof.
  intros Hws. unfold hasValue, trim.
  rewrite (trimStart_allWhiteSpace name Hws). cbn. apply andb_false_r.
Qed.

(** X16.  A sender or company name of white space only is a name that was
    not given: the system instruction is the one for the empty name. *)
Theorem blank_settings_are_absent (senderName companyName : string) :
  (allWhiteSpace senderName = true →
   getSystemInstruction senderName companyName =
     getSystemInstruction "" companyName) ∧
  (allWhiteSpace companyName = true →
   getSystemInstruction senderName companyName =
     getSystemInstruction senderName "").
Proof.
  split; intros Hws; apply hasValue_blank in Hws;
    unfold getSystemInstruction, senderContext, companyContext, introRule;
    rewrite Hws; change (hasValue "") with false; cbv iota;
    rewrite ?andb_false_r; reflexivity.
Qed.

Lemma includes_self (pat : string) : includes pat pat = true.
Proof.
  apply includes_spec. exists "", "". by rewrite string_app_nil_r.
Qed.

Lemma includes_app_l (x y pat : string) :
  includes x pat = true → includes (x +:+ y) pat = true.
Proof.
  intros (a & b & ->)%includes_spec. apply includes_spec.
  exists a, (b +:+ y). by rewrite !string_app_assoc.
Qed.

Lemma includes_app_r (x y pat : string) :
  includes y pat = true → includes (x +:+ y) pat = true.
Proof.
  intros (a & b & ->)%includes_spec. apply includes_spec.
  exists (x +:+ a), b. by rewrite !string_app_assoc.
Qed.

Lemma includes_join (sep pat x : string) (l : list string) :
  x ∈ l → includes x pat = true → includes (join sep l) pat = true.
Proof.
  unfold join. intros Hx Hinc. induction l as [|y l IH]; [by apply elem_of_nil in Hx|].
  cbn [String.concat]. apply elem_of_cons in Hx as [<-|Hx].
  - destruct l; [done|]. by apply includes_app_l.
  - destruct l as [|z l]; [by apply elem_of_nil in Hx|].
    apply includes_app_r, includes_app_r. by apply IH.
Qed.

(** X17.  A sender or company name that was given reaches the model: it
    stands in the system instruction, between double quotes. *)
Theorem given_settings_reach_the_model (senderName companyName : string) :
  (hasValue senderName = true →
   includes (getSystemInstruction senderName companyName)
     (dq +:+ senderName +:+ dq) = true) ∧
  (hasValue companyName = true →
   includes (getSystemInstruction senderName companyName)
     (dq +:+ companyName +:+ dq) = true).
Proof.
  split; intros Hv; unfold getSystemInstruction.
  - apply (includes_join _ _ (senderContext senderName)).
    + apply list_elem_of_lookup. by exists 13%nat.
    + unfold senderContext. rewrite Hv. apply includes_app_r, includes_self.
  - apply (includes_join _ _ (companyContext companyName)).
    + apply list_elem_of_lookup. by exists 14%nat.
    + unfold companyContext. rewrite Hv. apply includes_app_r, includes_self.
Qed.

(** ** Instances of the further properties *)

Lemma browser0_uuid_inj (j k : nat) :
  randomUUID browser0 j = randomUUID browser0 k → j = k.
Proof.
  cbn. intros Heq. apply (inj (String.app "uuid-")) in Heq.
  by apply (inj pretty) in Heq.
Qed.

(** X2 at the history that already holds the batch. *)
Lemma merge_known_numbers_witness :
  newLeads (merge (merge [lead1] [lead2; lead3]) [lead2; lead3]) =
    newLeads (merge [lead1] [lead2; lead3]) ∧
  duplicateCount (merge (merge [lead1] [lead2; lead3]) [lead2; lead3]) = 3%nat.
Proof.
  destruct (merge_known_numbers (merge [lead1] [lead2; lead3]) [lead2; lead3])
    as (_ & Hnew & Hdup).
  - rewrite phonesOf_merge. apply union_subseteq_l.
  - split; [exact Hnew|]. rewrite Hdup. reflexivity.
Defined.

(** X5 at a batch with one failing file. *)
Lemma processFiles_status_witness :
  status (app (outcomeSession
    (processFiles browser0 "Paul" "TLG" [fileA; fileB] [0; 1; 0; 1]%nat session0))) = SUCCESS ∧
  (length (leads (app session0)) <
   length (leads (app (outcomeSession
     (processFiles browser0 "Paul" "TLG" [fileA; fileB] [0; 1; 0; 1]%nat session0)))))%nat.
Proof.
  destruct (processFiles_status browser0 "Paul" "TLG" [fileA; fileB]
              [0; 1; 0; 1]%nat session0
              (outcomeSession
                 (processFiles browser0 "Paul" "TLG" [fileA; fileB] [0; 1; 0; 1]%nat
                    session0)))
    as [Hok|[He _]]; [cbn; lia|vm_compute; reflexivity|exact Hok|].
  vm_compute in He. discriminate He.
Defined.

(** X6 at a session in which two calls overlap: a first batch is
    processed; a second one is started and, while it is suspended, the
    timer of the first fires; a third one is then dropped on the drop
    zone and finishes before the second. *)
Lemma session_ids_unique_witness :
  id <$> leads (app (session (runEvents browser0 overlappingEvents initialPage)))
    = ["uuid-2"; "uuid-3"; "uuid-4"; "uuid-5"; "uuid-0"; "uuid-1"] ∧
  NoDup (id <$> leads (app (session
           (runEvents browser0 overlappingEvents initialPage)))).
Proof.
  split; [vm_compute; reflexivity|].
  apply (session_ids_unique browser0); [by exists overlappingEvents|].
  exact browser0_uuid_inj.
Defined.

(** X7 at a batch in which one file cannot be decoded, once chosen in
    the file input and once dropped on the drop zone. *)
Lemma one_attempt_per_file_witness :
  readFileCalls (world (outcomeSession
    (handleInputChange browser0 (Some [fileA; fileD]) [1; 0; 0]%nat session0)))
  = ["a.csv"; "d.pdf"] ∧
  gatewayCalls (world (outcomeSession
    (handleInputChange browser0 (Some [fileA; fileD]) [1; 0; 0]%nat session0)))
  = [{| callContent := Some "Ann Lee,5550100001";
        callMimeType := "text/plain";
        callSenderName := "Paul";
        callCompanyName := "TLG" |}] ∧
  gatewayCalls (world (outcomeSession
    (handleDrop browser0 (Some [fileA; fileD]) [1; 0; 0]%nat session0)))
  = [{| callContent := Some "Ann Lee,5550100001";
        callMimeType := "text/plain";
        callSenderName := "";
        callCompanyName := "" |}].
Proof.
  destruct (one_attempt_per_file browser0
              (senderName (app session0)) (companyName (app session0))
              [fileA; fileD] [1; 0; 0]%nat session0
              (outcomeSession
                 (processFiles browser0
                    (senderName (app session0)) (companyName (app session0))
                    [fileA; fileD] [1; 0; 0]%nat session0)))
    as ((Hreads & new & Hcalls & Hnew) & -> & _);
    [cbn; lia|vm_compute; reflexivity|].
  destruct (one_attempt_per_file browser0 "" "" [fileA; fileD]
              [1; 0; 0]%nat session0
              (outcomeSession
                 (processFiles browser0 "" "" [fileA; fileD]
                    [1; 0; 0]%nat session0)))
    as ((_ & new' & Hcalls' & Hnew') & _ & ->);
    [cbn; lia|vm_compute; reflexivity|].
  vm_compute in Hnew, Hnew'.
  apply Permutation_singleton_r in Hnew, Hnew'.
  rewrite Hnew in Hcalls. rewrite Hnew' in Hcalls'.
  split; [exact Hreads|]. split; [exact Hcalls|exact Hcalls'].
Defined.

(** X8 at a CSV file whose declared type is that of a spreadsheet. *)
Lemma request_matches_file_witness :
  buildContents "Ann Lee,5550100001" "text/plain" =
    [TextPart ("Extract the driver list from the following text data:"
               +:+ newline +:+ newline +:+ "Ann Lee,5550100001")].
Proof.
  apply (request_matches_file
           (File.Build "a.csv" "application/vnd.ms-excel")
           (ReaderLoad "Ann Lee,5550100001")
           {| content := Some "Ann Lee,5550100001"; mimeType := "text/plain" |}
           "Ann Lee,5550100001"); reflexivity.
Defined.

(** X9 at a bare JSON array. *)
Lemma cleanJsonOutput_plain_witness : cleanJsonOutput " [] " = trim " [] ".
Proof. apply cleanJsonOutput_plain; [discriminate|reflexivity]. Defined.

(** X10 at a fenced block with a line break after it. *)
Lemma cleanJsonOutput_unwraps_witness :
  cleanJsonOutput ("" +:+ fenceJson +:+ (newline +:+ "[]" +:+ newline) +:+
                   fence +:+ newline)
  = trim ("" +:+ (newline +:+ "[]" +:+ newline) +:+ newline).
Proof. apply cleanJsonOutput_unwraps; reflexivity. Defined.

(** X11 at a response that is one space. *)
Lemma blank_response_rejected_witness :
  extractLeadsFromFile JsonText.parse (λ _, Response (Some " "))
    "Ann Lee,5550100001" "text/plain" "Paul" "TLG"
  = Rejected ExtractionFailure.
Proof.
  apply (blank_response_rejected JsonText.parse (λ _, Response (Some " "))
           "Ann Lee,5550100001" "text/plain" "Paul" "TLG" " ");
    [reflexivity|reflexivity|discriminate|reflexivity].
Defined.

(** X13 at a history of three leads. *)
Lemma export_matches_history_witness :
  ∃ wb,
    exportToExcel (λ iso, iso) ("2025-01-31" +:+ "T" +:+ "08:15:00.000Z")
      (merge [lead1] [lead2; lead3]) = Some wb ∧
    fileName wb = "Cold_Leads_2025-01-31.xlsx" ∧
    colDuplicate <$> rows wb = ["Yes"; "No"; "No"].
Proof.
  destruct (export_matches_history (λ iso, iso) "2025-01-31" "08:15:00.000Z"
              (merge [lead1] [lead2; lead3]))
    as (wb & Hwb & Hname & _); [discriminate|reflexivity|].
  exists wb. split; [exact Hwb|]. split; [exact Hname|].
  vm_compute in Hwb. injection Hwb as <-. reflexivity.
Defined.

(** X14 at the session after one batch. *)
Lemma table_matches_header_witness :
  match LeadTable (leads (app (outcomeSession
          (processFiles browser0 "" "" [fileA; fileB; fileC]
             [2; 1; 0; 2; 1; 0]%nat initialSession)))) with
  | EmptyCard => False
  | Table body => NoDup (rowKey <$> body)
  end.
Proof.
  pose proof (table_matches_header browser0
    (outcomeSession
       (processFiles browser0 "" "" [fileA; fileB; fileC]
          [2; 1; 0; 2; 1; 0]%nat initialSession))) as Htable.
  destruct (LeadTable _) as [|body] eqn:Hrender.
  - vm_compute in Hrender. discriminate Hrender.
  - apply Htable; [|exact browser0_uuid_inj].
    apply (reachable_handler browser0 (Some [fileA; fileB; fileC])
             [2; 1; 0; 2; 1; 0]%nat initialSession);
      [apply reachable_initial|reflexivity|].
    left. vm_compute. reflexivity.
Defined.

(** X16 at a sender name of two spaces. *)
Lemma blank_settings_are_absent_witness :
  getSystemInstruction "  " "TLG" = getSystemInstruction "" "TLG".
Proof. apply blank_settings_are_absent. reflexivity. Defined.

(** X17 at the sender Paul. *)
Lemma given_settings_reach_the_model_witness :
  includes (getSystemInstruction "Paul" "") (dq +:+ "Paul" +:+ dq) = true.
Proof. apply given_settings_reach_the_model. reflexivity. Defined.
